(** * Database Learning Platform API: grading, progress and seeding

    A shallow embedding of [main.py] (FastAPI handlers over a document
    store) and the properties of its quiz grading, progress aggregation,
    lesson listing and start-up seeding. *)

From Stdlib Require Import ZArith Lia.
From Stdlib Require Import Floats.SpecFloat.
From stdpp Require Import gmap strings list sorting pretty.

(** * Python numbers

    Python's [int] is unbounded: [Z].  Python's [float] is IEEE 754
    binary64; its operations are the ones of the Standard Library's
    executable specification [SpecFloat] at precision 53. *)

Module Py.

Local Open Scope Z_scope.

Definition prec : Z := 53.
Definition emax : Z := 1024.

Abbreviation float := spec_float.

(** The exceptions the handlers can meet.  [StoreFailure] stands for
    whatever the database helpers raise when the store fails.  All of them
    derive from Python's [Exception]. *)
Inductive exn :=
| HTTPException (status_code : Z) (detail : string)
| StoreFailure (detail : string)
| ZeroDivisionError
| OverflowError
| ValueError.

Inductive res (A : Type) :=
| Ok (a : A)
| Raise (e : exn).
Arguments Ok {A} a.
Arguments Raise {A} e.

(** An integer as an exact, unrounded binary number [m * 2^0]. *)
Definition exact (z : Z) : float :=
  match z with
  | Z0 => S754_zero false
  | Zpos m => S754_finite false m 0
  | Zneg m => S754_finite true m 0
  end.

(** [a / b] on two ints: the quotient of the exact values, correctly
    rounded to binary64 (round to nearest, ties to even). *)
Definition int_truediv (a b : Z) : res float :=
  if b =? 0 then Raise ZeroDivisionError
  else match SFdiv prec emax (exact a) (exact b) with
       | S754_infinity _ => Raise OverflowError
       | q => Ok q
       end.

(** [float(z)], the conversion applied to an int operand of a float
    operation. *)
Definition float_of_int (z : Z) : res float :=
  match binary_normalize prec emax z 0 false with
  | S754_infinity _ => Raise OverflowError
  | x => Ok x
  end.

(** [x * z] for a float [x] and an int [z]. *)
Definition float_mul_int (x : float) (z : Z) : res float :=
  match float_of_int z with
  | Ok y => Ok (SFmul prec emax x y)
  | Raise e => Raise e
  end.

(** [int(x)]: truncation towards zero. *)
Definition int_of_float (x : float) : res Z :=
  match x with
  | S754_zero _ => Ok 0
  | S754_finite s m e =>
      Ok (cond_Zopp s (match e with
                       | Zneg k => Z.shiftr (Zpos m) (Zpos k)
                       | _ => Z.shiftl (Zpos m) e
                       end))
  | S754_infinity _ => Raise OverflowError
  | S754_nan => Raise ValueError
  end.

End Py.
Export Py.

(** * Schemas

    The pydantic models of [main.py], one module per model so that the
    fields keep their names. *)

Module Track.
Record t := mk
  { title : string; slug : string; description : string;
    level : string; tags : list string }.
End Track.

Module Lesson.
Record t := mk
  { track_slug : string; title : string; slug : string;
    content : string; difficulty : string; order : Z }.
End Lesson.

Module Question.
Record t := mk
  { prompt : string; options : list string; answer_index : Z;
    explanation : option string }.
End Question.

Module Quiz.
Record t := mk
  { lesson_slug : string; title : string; questions : list Question.t }.
End Quiz.

Module Attempt.
Record t := mk
  { user_email : string; quiz_id : string; answers : list Z;
    score : option Z; created_at : option Z }.
End Attempt.

Module SubmitAttempt.
Record t := mk { user_email : string; answers : list Z }.
End SubmitAttempt.

(** * Stored documents

    A stored document is the dictionary [model_dump()] of a model together
    with the identifier [_id] the store gave it.  A field that a handler
    reads with [dict.get] is optional here: [None] is the absent key.
    ([submit_attempt], the only writer of attempts, always stores a
    score.) *)

Module TrackDoc.
Record t := mk
  { _id : string; title : string; slug : string; description : string;
    level : string; tags : list string }.
End TrackDoc.

Module LessonDoc.
Record t := mk
  { _id : string; track_slug : string; title : string; slug : string;
    content : string; difficulty : string; order : option Z }.
End LessonDoc.

Module QuizDoc.
Record t := mk
  { _id : string; lesson_slug : string; title : string;
    questions : list Question.t }.
End QuizDoc.

Module AttemptDoc.
Record t := mk
  { _id : string; user_email : string; quiz_id : option string;
    answers : list Z; score : option Z; created_at : option Z }.
End AttemptDoc.

(** [model_dump()], as a document still waiting for its identifier. *)
Definition Track_model_dump (x : Track.t) (id : string) : TrackDoc.t :=
  TrackDoc.mk id (Track.title x) (Track.slug x) (Track.description x)
    (Track.level x) (Track.tags x).

Definition Lesson_model_dump (x : Lesson.t) (id : string) : LessonDoc.t :=
  LessonDoc.mk id (Lesson.track_slug x) (Lesson.title x) (Lesson.slug x)
    (Lesson.content x) (Lesson.difficulty x) (Some (Lesson.order x)).

Definition Quiz_model_dump (x : Quiz.t) (id : string) : QuizDoc.t :=
  QuizDoc.mk id (Quiz.lesson_slug x) (Quiz.title x) (Quiz.questions x).

Definition Attempt_model_dump (x : Attempt.t) (id : string) : AttemptDoc.t :=
  AttemptDoc.mk id (Attempt.user_email x) (Some (Attempt.quiz_id x))
    (Attempt.answers x) (Attempt.score x) (Attempt.created_at x).

(** * The document store *)

Record Store := mkStore
  { track_docs : list TrackDoc.t;
    lesson_docs : list LessonDoc.t;
    quiz_docs : list QuizDoc.t;
    attempt_docs : list AttemptDoc.t;
    next_id : N }.

Definition empty_store : Store := mkStore [] [] [] [] 0.

(** The collections ["track"], ["lesson"], ["quiz"] and ["attempt"], each
    with the type of its documents. *)
Inductive collection : Type → Type :=
| c_track : collection TrackDoc.t
| c_lesson : collection LessonDoc.t
| c_quiz : collection QuizDoc.t
| c_attempt : collection AttemptDoc.t.

Definition docs {D} (c : collection D) (s : Store) : list D :=
  match c in collection D return list D with
  | c_track => track_docs s
  | c_lesson => lesson_docs s
  | c_quiz => quiz_docs s
  | c_attempt => attempt_docs s
  end.

Definition fresh_id (s : Store) : string := pretty (next_id s).

Definition insert_doc {D} (c : collection D) (d : D) (s : Store) : Store :=
  match c in collection D return D → Store with
  | c_track => λ d,
      mkStore (track_docs s ++ [d]) (lesson_docs s) (quiz_docs s) (attempt_docs s) (N.succ (next_id s))
  | c_lesson => λ d,
      mkStore (track_docs s) (lesson_docs s ++ [d]) (quiz_docs s) (attempt_docs s) (N.succ (next_id s))
  | c_quiz => λ d,
      mkStore (track_docs s) (lesson_docs s) (quiz_docs s ++ [d]) (attempt_docs s) (N.succ (next_id s))
  | c_attempt => λ d,
      mkStore (track_docs s) (lesson_docs s) (quiz_docs s) (attempt_docs s ++ [d]) (N.succ (next_id s))
  end d.

(** * The world of a handler

    [db] is the document store; [faults] is what the store will do at its
    next calls ([Some detail]: that call fails; [None], or no entry left:
    it answers); [now] is the clock read by [datetime.utcnow()]; [stdout]
    collects what [print] writes. *)

Record World := mkWorld
  { db : Store; faults : list (option string); now : Z; stdout : list string }.

Definition M (A : Type) : Type := World → res A * World.

#[global] Instance res_ret : MRet res := λ A a, Ok a.
#[global] Instance res_bind : MBind res := λ A B f m,
  match m with
  | Ok a => f a
  | Raise e => Raise e
  end.

#[global] Instance M_ret : MRet M := λ A a w, (Ok a, w).
#[global] Instance M_bind : MBind M := λ A B f m w,
  match m w with
  | (Ok a, w') => f a w'
  | (Raise e, w') => (Raise e, w')
  end.

Definition raise {A} (e : exn) : M A := λ w, (Raise e, w).

Definition lift {A} (r : res A) : M A := λ w, (r, w).

(** [try: body / except Exception as e: handler e]. *)
Definition try_except {A} (body : M A) (handler : exn → M A) : M A := λ w,
  match body w with
  | (Ok a, w') => (Ok a, w')
  | (Raise e, w') => handler e w'
  end.

(** [for x in xs: await f(x)]. *)
Fixpoint for_each {A} (xs : list A) (f : A → M unit) : M unit :=
  match xs with
  | [] => mret ()
  | x :: xs' => f x ≫= λ _, for_each xs' f
  end.

Definition utcnow : M Z := λ w, (Ok (now w), w).

Definition str (e : exn) : string :=
  match e with
  | HTTPException _ detail => detail
  | StoreFailure detail => detail
  | ZeroDivisionError => "division by zero"
  | OverflowError => "cannot convert float infinity to integer"
  | ValueError => "cannot convert float NaN to integer"
  end.

(** [print(a, e)]: one line on standard output. *)
Definition print (a : string) (e : exn) : M unit := λ w,
  (Ok (), mkWorld (db w) (faults w) (now w) (stdout w ++ [a +:+ " " +:+ str e])).

(** Modelled from the spec: a call to the document store, of which
    [main.py] only imports the helpers ([from database import db,
    create_document, get_documents]).  The spec calls the store reliable
    but fallible: a call first takes the next entry of [faults] and fails
    if told so, leaving the store as it is. *)
Definition store_call {A} (op : Store → A * Store) : M A := λ w,
  match faults w with
  | Some detail :: fs =>
      (Raise (StoreFailure detail), mkWorld (db w) fs (now w) (stdout w))
  | None :: fs =>
      let '(a, s) := op (db w) in (Ok a, mkWorld s fs (now w) (stdout w))
  | [] =>
      let '(a, s) := op (db w) in (Ok a, mkWorld s [] (now w) (stdout w))
  end.

(** Modelled from the spec: [get_documents(collection, filter, limit)],
    missing with the module [database].  The spec's contract:
    [query(collection_name, filter, limit)] returns an ordered sequence of
    documents, the matching ones and at most [limit] of them; here in the
    order of their insertion. *)
Definition get_documents {D} (c : collection D) (filter_dict : D → bool)
    (limit : nat) : M (list D) :=
  store_call (λ s, (take limit (filter (λ d, filter_dict d = true) (docs c s)), s)).

(** Modelled from the spec: [create_document(collection, data)], missing
    with the module [database].  The spec's contract:
    [create(collection_name, document)] stores the document and returns it
    with its identifier; here the identifier is drawn from a counter. *)
Definition create_document {D} (c : collection D) (data : string → D) : M D :=
  store_call (λ s, let d := data (fresh_id s) in (d, insert_doc c d s)).

(** * The handlers of [main.py] *)

(** ** Seeding *)

Definition ensure_track (track : Track.t) : M unit :=
  existing ← get_documents c_track
                (λ d, bool_decide (TrackDoc.slug d = Track.slug track)) 1;
  match existing with
  | [] => create_document c_track (Track_model_dump track) ≫= λ _, mret ()
  | _ :: _ => mret ()
  end.

Definition ensure_lesson (lesson : Lesson.t) : M unit :=
  existing ← get_documents c_lesson
                (λ d, bool_decide (LessonDoc.slug d = Lesson.slug lesson)) 1;
  match existing with
  | [] => create_document c_lesson (Lesson_model_dump lesson) ≫= λ _, mret ()
  | _ :: _ => mret ()
  end.

Definition ensure_quiz (quiz : Quiz.t) : M unit :=
  existing ← get_documents c_quiz
                (λ d, bool_decide (QuizDoc.lesson_slug d = Quiz.lesson_slug quiz)) 1;
  match existing with
  | [] => create_document c_quiz (Quiz_model_dump quiz) ≫= λ _, mret ()
  | _ :: _ => mret ()
  end.

(** The curriculum of [seed_data]: sections I and II, units 1 to 7. *)

Definition nl : string := String (Ascii.ascii_of_nat 10) EmptyString.
Definition blank : string := EmptyString.

Definition unit1_md : string :=
  String.concat nl
    [ "# UNIT 1: Introduction to Database Systems (07)";
      blank;
      "## Overview of Database System Applications and Purpose";
      "- Why databases: persistence, concurrency, integrity, security, and scalability.";
      "- Applications: banking, e-commerce, healthcare, IoT, analytics.";
      blank;
      "## Views of Data and Database Languages";
      "- Physical, logical, and view levels.";
      "- Languages: DDL, DML, DCL, TCL.";
      blank;
      "## Relational Concepts and Design";
      "- Relations, attributes, tuples, schemas, constraints.";
      "- Integrity constraints: domain, key, referential.";
      blank;
      "## Data Storage and Querying";
      "- Files, pages, buffer manager; query processing & optimization (overview).";
      blank;
      "## Transaction Management & Architecture";
      "- ACID, logs, recovery, concurrency (high level).";
      blank;
      "## Data Modeling with ER Model";
      "- Entities, attributes, relationships; cardinality and participation.";
      "- Constraints and keys: super, candidate, primary; weak entities.";
      "- Codd's rules (relational model principles).";
      blank;
      "## Extended ER: Generalization & Aggregation";
      "- ISA hierarchies and aggregation.";
      "- Mapping ER to tables.";
      blank ].

Definition unit2_md : string :=
  String.concat nl
    [ "# UNIT 2: Relational Data Model, Relational Algebra, and Calculus (07)";
      blank;
      "## Structure & Schema";
      "- Relations, schemas, keys, foreign keys.";
      blank;
      "## Relational Algebra";
      "- Selection (σ), Projection (π), Union (∪), Difference (−), Cartesian Product (×), Join (⨝).";
      "- Extended ops: rename, intersection, division, theta-join, natural join, outer joins.";
      blank;
      "## Relational Calculus";
      "- Tuple Relational Calculus (TRC) and Domain Relational Calculus (DRC).";
      blank ].

Definition unit3_md : string :=
  String.concat nl
    [ "# UNIT 3: Introduction to SQL (07)";
      blank;
      "## SQL Overview";
      "- Role in DBMS, ANSI/ISO standards.";
      blank;
      "## DDL & Basic Query Structure";
      "- CREATE, ALTER, DROP; SELECT-FROM-WHERE; ORDER BY; DISTINCT.";
      blank;
      "## Operators & NULLs";
      "- Comparison, logical ops; set ops (UNION, INTERSECT, EXCEPT).";
      "- NULL semantics: IS NULL, COALESCE, three-valued logic.";
      blank;
      "## Aggregates & Subqueries";
      "- COUNT, SUM, AVG, MIN, MAX; GROUP BY, HAVING; nested queries and IN/ANY/ALL/EXISTS.";
      blank;
      "## Modifying Data";
      "- INSERT, UPDATE, DELETE; transactions and COMMIT/ROLLBACK.";
      blank;
      "## Intermediate SQL";
      "- Joins, views, integrity constraints, data types, schema definition, authorization.";
      blank;
      "## Advanced SQL";
      "- Embedding/integration (JDBC/ODBC), stored procedures, functions, triggers.";
      blank ].

Definition unit4_md : string :=
  String.concat nl
    [ "# UNIT 4: Relational Database Design (05)";
      blank;
      "## Normalization & Good Design";
      "- Anomalies and decomposition goals.";
      blank;
      "## Functional Dependencies & Normal Forms";
      "- 1NF, 2NF, 3NF, BCNF; synthesis vs. decomposition.";
      blank;
      "## Multivalued Dependencies & 4NF";
      "- Rationale and design impact.";
      blank;
      "## Design Process";
      "- Requirements → ER/Relational model → Normalization → Physical design.";
      blank ].

Definition unit5_md : string :=
  String.concat nl
    [ "# UNIT 5: Indexing & Hashing (06)";
      blank;
      "## Basics";
      "- Access paths, cost model, clustered vs. unclustered.";
      blank;
      "## Ordered Indices";
      "- B-Tree, B+Tree structures; search, insert, delete.";
      blank;
      "## Hashing";
      "- Static vs. dynamic hashing; extendible/linear hashing.";
      blank;
      "## Others";
      "- Bitmap indices; multi-key access; defining indexes in SQL.";
      blank ].

Definition unit6_md : string :=
  String.concat nl
    [ "# UNIT 6: Transaction Processing (06)";
      blank;
      "## Concepts & Models";
      "- Transactions, atomicity, durability.";
      blank;
      "## Isolation & ACID";
      "- Phenomena, isolation levels.";
      blank;
      "## Storage, Schedules, Serializability, Recoverability";
      "- Conflict/view serializability; recoverable schedules.";
      blank ].

Definition unit7_md : string :=
  String.concat nl
    [ "# UNIT 7: Concurrency Control & Recovery (07)";
      blank;
      "## Concurrency Control";
      "- Lock-based protocols, deadlocks, multiple granularity, timestamp ordering.";
      blank;
      "## Recovery Systems";
      "- Failure types, logging, ARIES-style recovery (high level), buffer management.";
      blank ].

Definition lessons : list Lesson.t :=
  [ {| Lesson.track_slug := "section-i";
       Lesson.title := "UNIT 1: Introduction to Database Systems";
       Lesson.slug := "unit-1-intro-db";
       Lesson.content := unit1_md;
       Lesson.difficulty := "easy";
       Lesson.order := 1 |};
    {| Lesson.track_slug := "section-i";
       Lesson.title := "UNIT 2: Relational Model, Algebra & Calculus";
       Lesson.slug := "unit-2-relational";
       Lesson.content := unit2_md;
       Lesson.difficulty := "easy";
       Lesson.order := 2 |};
    {| Lesson.track_slug := "section-i";
       Lesson.title := "UNIT 3: Introduction to SQL";
       Lesson.slug := "unit-3-sql";
       Lesson.content := unit3_md;
       Lesson.difficulty := "easy";
       Lesson.order := 3 |};
    {| Lesson.track_slug := "section-ii";
       Lesson.title := "UNIT 4: Relational Database Design";
       Lesson.slug := "unit-4-design";
       Lesson.content := unit4_md;
       Lesson.difficulty := "intermediate";
       Lesson.order := 1 |};
    {| Lesson.track_slug := "section-ii";
       Lesson.title := "UNIT 5: Indexing & Hashing";
       Lesson.slug := "unit-5-indexing";
       Lesson.content := unit5_md;
       Lesson.difficulty := "intermediate";
       Lesson.order := 2 |};
    {| Lesson.track_slug := "section-ii";
       Lesson.title := "UNIT 6: Transaction Processing";
       Lesson.slug := "unit-6-transactions";
       Lesson.content := unit6_md;
       Lesson.difficulty := "intermediate";
       Lesson.order := 3 |};
    {| Lesson.track_slug := "section-ii";
       Lesson.title := "UNIT 7: Concurrency Control & Recovery";
       Lesson.slug := "unit-7-concurrency";
       Lesson.content := unit7_md;
       Lesson.difficulty := "intermediate";
       Lesson.order := 4 |} ].

Definition quizzes : list Quiz.t :=
  [ {| Quiz.lesson_slug := "unit-1-intro-db";
       Quiz.title := "Unit 1 Quiz";
       Quiz.questions :=
        [ {| Question.prompt := "Which property is NOT part of ACID?";
             Question.options := ["Atomicity"; "Consistency"; "Isolation"; "Distribution"];
             Question.answer_index := 3;
             Question.explanation := Some "Durability is the D; Distribution is not an ACID property." |} ] |};
    {| Quiz.lesson_slug := "unit-2-relational";
       Quiz.title := "Unit 2 Quiz";
       Quiz.questions :=
        [ {| Question.prompt := "Which operator in Relational Algebra filters rows?";
             Question.options := ["Projection (π)"; "Selection (σ)"; "Union (∪)"; "Join (⨝)"];
             Question.answer_index := 1;
             Question.explanation := None |} ] |};
    {| Quiz.lesson_slug := "unit-3-sql";
       Quiz.title := "Unit 3 Quiz";
       Quiz.questions :=
        [ {| Question.prompt := "Which SQL clause groups rows for aggregation?";
             Question.options := ["WHERE"; "GROUP BY"; "ORDER BY"; "HAVING"];
             Question.answer_index := 1;
             Question.explanation := None |} ] |};
    {| Quiz.lesson_slug := "unit-4-design";
       Quiz.title := "Unit 4 Quiz";
       Quiz.questions :=
        [ {| Question.prompt := "BCNF eliminates which issue most strongly?";
             Question.options := ["Update anomalies"; "Lost updates"; "Phantoms"; "Buffer thrashing"];
             Question.answer_index := 0;
             Question.explanation := None |} ] |};
    {| Quiz.lesson_slug := "unit-5-indexing";
       Quiz.title := "Unit 5 Quiz";
       Quiz.questions :=
        [ {| Question.prompt := "A B+Tree stores keys in which nodes?";
             Question.options := ["Leaves only"; "Internal only"; "Both internal and leaves"; "Neither"];
             Question.answer_index := 2;
             Question.explanation := None |} ] |};
    {| Quiz.lesson_slug := "unit-6-transactions";
       Quiz.title := "Unit 6 Quiz";
       Quiz.questions :=
        [ {| Question.prompt := "Read committed prevents which phenomenon?";
             Question.options := ["Dirty reads"; "Non-repeatable reads"; "Phantoms"; "Deadlocks"];
             Question.answer_index := 0;
             Question.explanation := None |} ] |};
    {| Quiz.lesson_slug := "unit-7-concurrency";
       Quiz.title := "Unit 7 Quiz";
       Quiz.questions :=
        [ {| Question.prompt := "Which protocol can cause deadlocks?";
             Question.options := ["Timestamp ordering"; "Two-phase locking"; "Optimistic CC"; "MVCC"];
             Question.answer_index := 1;
             Question.explanation := None |} ] |} ].

Definition seed_data : M unit :=
  try_except
    (_ ← ensure_track
           {| Track.title := "SECTION I";
              Track.slug := "section-i";
              Track.description := "Foundations: DB systems, relational model, and SQL fundamentals.";
              Track.level := "beginner";
              Track.tags := ["database"; "relational"; "sql"] |};
     _ ← ensure_track
           {| Track.title := "SECTION II";
              Track.slug := "section-ii";
              Track.description := "Design, indexing, transactions, concurrency, and recovery.";
              Track.level := "intermediate";
              Track.tags := ["design"; "indexing"; "transactions"] |};
     _ ← for_each lessons ensure_lesson;
     for_each quizzes ensure_quiz)
    (λ e, print "[seed] Skipped seeding due to error:" e).

(** ** Reading the curriculum *)

Definition list_tracks : M (list TrackDoc.t) :=
  get_documents c_track (λ _, true) 100.

Definition order_key (x : LessonDoc.t) : Z := default 0%Z (LessonDoc.order x).

(** [items.sort(key=...)]: Python's sort is stable, so its result is the
    one of any stable sort; this one inserts each item before the first
    item with a larger key. *)
Fixpoint insert_by {A} (key : A → Z) (x : A) (l : list A) : list A :=
  match l with
  | [] => [x]
  | y :: l' => if (key x <=? key y)%Z then x :: y :: l' else y :: insert_by key x l'
  end.

Definition sort_by {A} (key : A → Z) (l : list A) : list A :=
  foldr (insert_by key) [] l.

Definition list_lessons (slug : string) : M (list LessonDoc.t) :=
  items ← get_documents c_lesson
             (λ d, bool_decide (LessonDoc.track_slug d = slug)) 200;
  mret (sort_by order_key items).

Definition get_lesson (slug : string) : M LessonDoc.t :=
  items ← get_documents c_lesson (λ d, bool_decide (LessonDoc.slug d = slug)) 1;
  match items with
  | [] => raise (HTTPException 404 "Lesson not found")
  | item :: _ => mret item
  end.

Definition get_quiz (slug : string) : M QuizDoc.t :=
  items ← get_documents c_quiz (λ d, bool_decide (QuizDoc.lesson_slug d = slug)) 1;
  match items with
  | [] => raise (HTTPException 404 "Quiz not found")
  | item :: _ => mret item
  end.

(** ** Grading *)

(** [enumerate(xs)]. *)
Definition enumerate {A} (xs : list A) : list (nat * A) :=
  zip (seq 0 (length xs)) xs.

(** The loop of [submit_attempt]: one more for each answer whose position
    is a question's and whose value is that question's [answer_index]. *)
Definition count_correct (questions : list Question.t) (answers : list Z) : Z :=
  fold_left
    (λ correct '(i, ans),
       if bool_decide (i < length questions)
          && bool_decide (Question.answer_index <$> questions !! i = Some ans)
       then (correct + 1)%Z else correct)
    (enumerate answers) 0%Z.

(** [int((correct / max(1, total)) * 100)]. *)
Definition score_percent (correct total : Z) : res Z :=
  ratio ← int_truediv correct (Z.max 1 total);
  scaled ← float_mul_int ratio 100;
  int_of_float scaled.

Record AttemptResult := mkAttemptResult
  { r_score : Z; r_correct : Z; r_total : Z }.

Definition submit_attempt (quiz_id : string) (payload : SubmitAttempt.t)
    : M AttemptResult :=
  quizzes ← get_documents c_quiz (λ d, bool_decide (QuizDoc._id d = quiz_id)) 1;
  match quizzes with
  | [] => raise (HTTPException 404 "Quiz not found")
  | quiz :: _ =>
      let questions := QuizDoc.questions quiz in
      let correct := count_correct questions (SubmitAttempt.answers payload) in
      score ← lift (score_percent correct (Z.of_nat (length questions)));
      created ← utcnow;
      let attempt :=
        Attempt.mk (SubmitAttempt.user_email payload) quiz_id
          (SubmitAttempt.answers payload) (Some score) (Some created) in
      _ ← create_document c_attempt (Attempt_model_dump attempt);
      mret (mkAttemptResult score correct (Z.of_nat (length questions)))
  end.

(** ** Progress *)

Definition score_or_0 (a : AttemptDoc.t) : Z := default 0%Z (AttemptDoc.score a).

(** One turn of the loop of [get_progress] over the dictionary
    [by_quiz]. *)
Definition progress_step (by_quiz : gmap (option string) Z) (a : AttemptDoc.t)
    : gmap (option string) Z :=
  let qid := AttemptDoc.quiz_id a in
  match by_quiz !! qid with
  | None => <[qid := score_or_0 a]> by_quiz
  | Some best =>
      if (score_or_0 a >? best)%Z then <[qid := score_or_0 a]> by_quiz else by_quiz
  end.

Record Progress := mkProgress
  { quizzes_completed : nat; best_scores : gmap (option string) Z }.

Definition count_completed (by_quiz : gmap (option string) Z) : nat :=
  length (filter (λ s, (s >= 70)%Z) (snd <$> map_to_list by_quiz)).

Definition get_progress (email : string) : M Progress :=
  attempts ← get_documents c_attempt
                (λ d, bool_decide (AttemptDoc.user_email d = email)) 1000;
  let by_quiz := fold_left progress_step attempts ∅ in
  mret (mkProgress (count_completed by_quiz) by_quiz).

(** * Facts about binary64 rounding

    What the grading needs from [SpecFloat]: rounding to nearest never
    carries a value above a bound that is itself a binary64 number. *)

Module FloatFacts.

Local Open Scope Z_scope.

Lemma fexp_64 e : fexp prec emax e = Z.max (e - 53) (-1074).
Proof. reflexivity. Qed.

Lemma digits2_pos_size p : digits2_pos p = Pos.size p.
Proof. induction p as [p IH|p IH|]; simpl; now rewrite ?IH. Qed.

Lemma Zdigits2_log2 p : Zdigits2 (Zpos p) = Z.log2 (Zpos p) + 1.
Proof.
  destruct p as [p|p|]; simpl; rewrite ?digits2_pos_size, ?Pos2Z.inj_succ; lia.
Qed.

Lemma Zdigits2_le m j : 0 ≤ m → 0 ≤ j → m < 2 ^ j → Zdigits2 m ≤ j.
Proof.
  intros Hm Hj Hlt. destruct m as [|p|p]; [simpl; lia| |lia].
  rewrite Zdigits2_log2.
  assert (Z.log2 (Z.pos p) < j) by (apply Z.log2_lt_pow2; lia). lia.
Qed.

Lemma Zdigits2_mono a b : 0 < a ≤ b → Zdigits2 a ≤ Zdigits2 b.
Proof.
  intros [Ha Hab]. destruct a as [|p|p]; try lia. destruct b as [|q|q]; try lia.
  rewrite !Zdigits2_log2.
  assert (Z.log2 (Z.pos p) ≤ Z.log2 (Z.pos q)) by (apply Z.log2_le_mono; lia). lia.
Qed.

(** ** Shifting right *)

Definition inexact (mrs : shr_record) : bool := shr_r mrs || shr_s mrs.

Lemma loc_of_shr_record_exact mrs :
  inexact mrs = false → loc_of_shr_record mrs = loc_Exact.
Proof.
  destruct mrs as [m [] []]; unfold inexact; simpl; intros H;
    first [discriminate H | reflexivity].
Qed.

Lemma shr_record_of_loc_m m l : shr_m (shr_record_of_loc m l) = m.
Proof. destruct l as [|[]]; reflexivity. Qed.

Lemma shr_record_of_loc_exact m : inexact (shr_record_of_loc m loc_Exact) = false.
Proof. reflexivity. Qed.

Lemma loc_of_shr_record_of_loc m l :
  loc_of_shr_record (shr_record_of_loc m l) = l.
Proof. destruct l as [|[]]; reflexivity. Qed.

(** [shifted n x y]: [y] is [x] shifted right by [n] bits, and it is exact
    when [x] was and no set bit fell off. *)
Definition shifted (n : Z) (x y : shr_record) : Prop :=
  shr_m y = shr_m x / 2 ^ n
  ∧ (inexact x = false → shr_m x mod 2 ^ n = 0 → inexact y = false).

Lemma shifted_1 x : 0 ≤ shr_m x → shifted 1 x (shr_1 x).
Proof.
  destruct x as [m r s]; simpl. intros Hm. unfold shifted, inexact; simpl.
  change (2 ^ 1) with 2.
  destruct m as [|[p|p|]|]; try lia; simpl shr_m; simpl shr_r; simpl shr_s.
  - split; [reflexivity|]. intros H _. now rewrite H.
  - split.
    + rewrite Pos2Z.inj_xI. apply Z.div_unique with 1; lia.
    + intros _ H. rewrite Pos2Z.inj_xI in H.
      replace (2 * Z.pos p + 1) with (1 + Z.pos p * 2) in H by lia.
      rewrite Z.mod_add in H by lia. discriminate H.
  - split.
    + rewrite Pos2Z.inj_xO. apply Z.div_unique with 0; lia.
    + intros H _. now rewrite H.
  - split; [reflexivity|]. intros _ H. discriminate H.
Qed.

Lemma shifted_trans a b x y z :
  0 < a → 0 < b → shifted a x y → shifted b y z → shifted (a + b) x z.
Proof.
  intros Ha Hb [Hy Hxy] [Hz Hyz]. split.
  - rewrite Hz, Hy, Z.pow_add_r by lia. apply Z.div_div; lia.
  - intros Hx Hmod.
    assert (H2a : 0 < 2 ^ a) by (apply Z.pow_pos_nonneg; lia).
    assert (H2b : 0 < 2 ^ b) by (apply Z.pow_pos_nonneg; lia).
    rewrite Z.pow_add_r in Hmod by lia.
    apply Z.mod_divide in Hmod; [|lia]. destruct Hmod as [k Hk].
    apply Hyz.
    + apply Hxy; [exact Hx|].
      rewrite Hk. replace (k * (2 ^ a * 2 ^ b)) with (k * 2 ^ b * 2 ^ a) by ring.
      apply Z.mod_mul; lia.
    + rewrite Hy, Hk.
      replace (k * (2 ^ a * 2 ^ b)) with (k * 2 ^ b * 2 ^ a) by ring.
      rewrite Z.div_mul by lia. apply Z.mod_mul; lia.
Qed.

Lemma shifted_nonneg n x y : 0 ≤ n → 0 ≤ shr_m x → shifted n x y → 0 ≤ shr_m y.
Proof.
  intros Hn Hx [Hy _]. rewrite Hy. apply Z.div_pos; [lia|].
  apply Z.pow_pos_nonneg; lia.
Qed.

Lemma iter_pos_shr_1 p : ∀ x, 0 ≤ shr_m x → shifted (Z.pos p) x (SpecFloat.iter_pos shr_1 p x).
Proof.
  induction p as [p IH|p IH|]; intros x Hx; simpl SpecFloat.iter_pos.
  - assert (H1 := shifted_1 x Hx).
    assert (Hx1 : 0 ≤ shr_m (shr_1 x)) by (eapply shifted_nonneg; [|exact Hx|exact H1]; lia).
    assert (H2 := IH _ Hx1).
    assert (Hx2 : 0 ≤ shr_m (SpecFloat.iter_pos shr_1 p (shr_1 x)))
      by (eapply shifted_nonneg; [|exact Hx1|exact H2]; lia).
    assert (H3 := IH _ Hx2).
    replace (Z.pos p~1) with (1 + (Z.pos p + Z.pos p)) by lia.
    eapply shifted_trans; [lia|lia|exact H1|].
    eapply shifted_trans; [lia|lia|exact H2|exact H3].
  - assert (H2 := IH _ Hx).
    assert (Hx2 : 0 ≤ shr_m (SpecFloat.iter_pos shr_1 p x))
      by (eapply shifted_nonneg; [|exact Hx|exact H2]; lia).
    assert (H3 := IH _ Hx2).
    replace (Z.pos p~0) with (Z.pos p + Z.pos p) by lia.
    eapply shifted_trans; [lia|lia|exact H2|exact H3].
  - apply shifted_1, Hx.
Qed.

Lemma shr_fexp_spec m e l :
  0 ≤ m →
  ∃ mrs, shr_fexp prec emax m e l = (mrs, Z.max e (fexp prec emax (Zdigits2 m + e)))
    ∧ shr_m mrs = m / 2 ^ (Z.max e (fexp prec emax (Zdigits2 m + e)) - e)
    ∧ (l = loc_Exact →
       m mod 2 ^ (Z.max e (fexp prec emax (Zdigits2 m + e)) - e) = 0 →
       loc_of_shr_record mrs = loc_Exact).
Proof.
  intros Hm. unfold shr_fexp, shr.
  set (f := fexp prec emax (Zdigits2 m + e)).
  destruct (f - e) as [|p|p] eqn:Hn.
  - exists (shr_record_of_loc m l). replace (Z.max e f) with e by lia.
    rewrite Z.sub_diag, shr_record_of_loc_m, Z.div_1_r.
    split; [reflexivity|]. split; [reflexivity|].
    intros -> _. apply loc_of_shr_record_of_loc.
  - exists (SpecFloat.iter_pos shr_1 p (shr_record_of_loc m l)).
    replace (Z.max e f) with (e + Z.pos p) by lia.
    replace (e + Z.pos p - e) with (Z.pos p) by lia.
    destruct (iter_pos_shr_1 p (shr_record_of_loc m l)) as [Hv Hex].
    { now rewrite shr_record_of_loc_m. }
    rewrite shr_record_of_loc_m in Hv, Hex.
    split; [reflexivity|]. split; [exact Hv|].
    intros -> Hmod. apply loc_of_shr_record_exact, Hex; [reflexivity|exact Hmod].
  - exists (shr_record_of_loc m l). replace (Z.max e f) with e by lia.
    rewrite Z.sub_diag, shr_record_of_loc_m, Z.div_1_r.
    split; [reflexivity|]. split; [reflexivity|].
    intros -> _. apply loc_of_shr_record_of_loc.
Qed.

Lemma round_nearest_even_exact m : round_nearest_even m loc_Exact = m.
Proof. reflexivity. Qed.

Lemma round_nearest_even_range m l : m ≤ round_nearest_even m l ≤ m + 1.
Proof. destruct l as [|[]]; simpl; try lia. destruct (Z.even m); lia. Qed.

(** [below K ek x]: the float [x] is [+0], or positive, finite and at
    most [K * 2^ek]. *)
Definition below (K ek : Z) (x : float) : Prop :=
  match x with
  | S754_zero false => True
  | S754_finite false m e => e ≤ ek ∧ Z.pos m ≤ K * 2 ^ (ek - e)
  | _ => False
  end.

(** ** Rounding stays below a representable bound

    [K * 2^ek] is a binary64 number; the value to round is
    [mx * 2^ex] (exactly, or that and a fraction of [2^ex]) and does not
    exceed it.  Then neither does the rounded result. *)
Lemma binary_round_aux_le mx ex lx K ek :
  0 ≤ mx → 0 < K < 2 ^ 53 → -1074 ≤ ek ≤ 971 → ex ≤ ek →
  (match lx with loc_Exact => mx | _ => mx + 1 end) ≤ K * 2 ^ (ek - ex) →
  below K ek (binary_round_aux prec emax false mx ex lx).
Proof.
  intros Hmx HK Hek Hex HU. unfold below.
  assert (Hmx_le : mx ≤ K * 2 ^ (ek - ex)) by (destruct lx; lia).
  assert (Hp : ∀ j, 0 ≤ j → 0 < 2 ^ j) by (intros; apply Z.pow_pos_nonneg; lia).
  (* first shift *)
  unfold binary_round_aux.
  destruct (shr_fexp_spec mx ex lx Hmx) as (mrs1 & -> & Hm1 & Hex1).
  set (e1 := Z.max ex (fexp prec emax (Zdigits2 mx + ex))) in *.
  assert (He1 : ex ≤ e1 ≤ ek).
  { unfold e1. rewrite fexp_64.
    assert (Zdigits2 mx ≤ 53 + (ek - ex)); [|lia].
    apply Zdigits2_le; [lia|lia|].
    rewrite Z.pow_add_r by lia. specialize (Hp (ek - ex)). nia. }
  assert (Hsplit : 2 ^ (ek - ex) = 2 ^ (ek - e1) * 2 ^ (e1 - ex)).
  { rewrite <- Z.pow_add_r by lia. f_equal. lia. }
  set (Q := K * 2 ^ (ek - e1)).
  assert (HQ : K * 2 ^ (ek - ex) = 2 ^ (e1 - ex) * Q) by (unfold Q; rewrite Hsplit; ring).
  assert (Hm1_0 : 0 ≤ shr_m mrs1).
  { rewrite Hm1. apply Z.div_pos; [lia|]. apply Hp; lia. }
  (* rounding *)
  set (m2 := round_nearest_even (shr_m mrs1) (loc_of_shr_record mrs1)).
  assert (Hm2 : 0 ≤ m2 ≤ Q).
  { assert (Hr := round_nearest_even_range (shr_m mrs1) (loc_of_shr_record mrs1)).
    fold m2 in Hr. split; [lia|].
    assert (Hle : shr_m mrs1 ≤ Q).
    { rewrite Hm1. apply Z.div_le_upper_bound; [apply Hp; lia|]. lia. }
    destruct (Z.eq_dec m2 (shr_m mrs1)) as [->|Hne]; [exact Hle|].
    assert (Hlt : mx < 2 ^ (e1 - ex) * Q).
    { destruct lx as [|c].
      - destruct (Z.eq_dec (mx mod 2 ^ (e1 - ex)) 0) as [Hmod|Hmod].
        + exfalso. apply Hne. unfold m2. rewrite Hex1 by easy. reflexivity.
        + destruct (Z.eq_dec mx (2 ^ (e1 - ex) * Q)) as [Heq|]; [|lia].
          exfalso. apply Hmod. rewrite Heq, Z.mul_comm. apply Z.mod_mul.
          specialize (Hp (e1 - ex)). lia.
      - lia. }
    assert (shr_m mrs1 < Q); [|lia].
    rewrite Hm1. apply Z.div_lt_upper_bound; [apply Hp; lia|exact Hlt]. }
  (* second shift *)
  destruct (shr_fexp_spec m2 e1 loc_Exact (proj1 Hm2)) as (mrs2 & -> & Hm3 & _).
  set (e3 := Z.max e1 (fexp prec emax (Zdigits2 m2 + e1))) in *.
  assert (He3 : e1 ≤ e3 ≤ ek).
  { unfold e3. rewrite fexp_64.
    assert (Zdigits2 m2 ≤ 53 + (ek - e1)); [|lia].
    apply Zdigits2_le; [lia|lia|].
    rewrite Z.pow_add_r by lia. specialize (Hp (ek - e1)). unfold Q in Hm2. nia. }
  assert (Hm3_le : 0 ≤ shr_m mrs2 ≤ K * 2 ^ (ek - e3)).
  { rewrite Hm3. split.
    - apply Z.div_pos; [lia|]. apply Hp; lia.
    - apply Z.div_le_upper_bound; [apply Hp; lia|].
      replace (2 ^ (e3 - e1) * (K * 2 ^ (ek - e3))) with Q; [lia|].
      unfold Q. replace (ek - e1) with ((e3 - e1) + (ek - e3)) by lia.
      rewrite Z.pow_add_r by lia. ring. }
  destruct (shr_m mrs2) as [|m|m]; [exact I| |lia].
  replace (e3 <=? emax - prec) with true.
  - split; [lia|exact (proj2 Hm3_le)].
  - symmetry. apply Z.leb_le. change (emax - prec) with 971. lia.
Qed.

(** ** Division of two positive ints *)

Lemma div_eucl_div_mod a b : Z.div_eucl a b = (a / b, a mod b).
Proof. unfold Z.div, Z.modulo. now destruct (Z.div_eucl a b). Qed.

Lemma new_location_0 n : new_location n 0 = loc_Exact.
Proof. unfold new_location. now destruct (Z.even n). Qed.

(** The number of bits by which the dividend is shifted left. *)
Definition div_shift (c n : Z) : Z := Z.min (53 + Zdigits2 n - Zdigits2 c) 1074.

Lemma div_shift_range c n : 0 < c ≤ n → 53 ≤ div_shift c n ≤ 1074.
Proof. intros H. assert (H' := Zdigits2_mono c n H). unfold div_shift. lia. Qed.

Lemma SFdiv_core_binary_ints c n :
  0 < c ≤ n →
  SFdiv_core_binary prec emax c 0 n 0
  = (c * 2 ^ div_shift c n / n, - div_shift c n,
     new_location n ((c * 2 ^ div_shift c n) mod n)).
Proof.
  intros H. assert (Hs := div_shift_range c n H).
  assert (Hd := Zdigits2_mono c n H).
  unfold SFdiv_core_binary. rewrite fexp_64.
  replace (Z.min (Z.max (Zdigits2 c + 0 - (Zdigits2 n + 0) - 53) (-1074)) (0 - 0))
    with (- div_shift c n) by (unfold div_shift; lia).
  replace (0 - 0 - - div_shift c n) with (div_shift c n) by lia.
  destruct (div_shift c n) as [|p|p] eqn:Hp; [lia| |lia].
  rewrite Z.shiftl_mul_pow2 by lia. now rewrite div_eucl_div_mod.
Qed.

Lemma int_truediv_below_1 c n :
  0 < c ≤ n → ∃ x, int_truediv c n = Ok x ∧ below (2 ^ 52) (-52) x.
Proof.
  intros H. assert (Hs := div_shift_range c n H).
  assert (Hpow : 0 < 2 ^ div_shift c n) by (apply Z.pow_pos_nonneg; lia).
  assert (Hb : below (2 ^ 52) (-52) (SFdiv prec emax (exact c) (exact n))).
  { destruct c as [|pc|pc]; [lia| |lia]. destruct n as [|pn|pn]; [lia| |lia].
    unfold exact, SFdiv. rewrite SFdiv_core_binary_ints by exact H.
    change (xorb false false) with false.
    set (s := div_shift (Z.pos pc) (Z.pos pn)) in *.
    set (q := Z.pos pc * 2 ^ s / Z.pos pn).
    set (r := (Z.pos pc * 2 ^ s) mod Z.pos pn).
    assert (Hdm : Z.pos pc * 2 ^ s = Z.pos pn * q + r) by (apply Z.div_mod; lia).
    assert (Hr : 0 ≤ r < Z.pos pn) by (apply Z.mod_pos_bound; lia).
    assert (Hq : 0 ≤ q) by (apply Z.div_pos; lia).
    apply binary_round_aux_le; [exact Hq|split; reflexivity|lia|lia|].
    replace (-52 - - s) with (s - 52) by lia.
    replace (2 ^ 52 * 2 ^ (s - 52)) with (2 ^ s)
      by (rewrite <- Z.pow_add_r by lia; f_equal; lia).
    destruct (Z.eq_dec r 0) as [Hr0|Hr0].
    - rewrite Hr0, new_location_0. nia.
    - assert (q + 1 ≤ 2 ^ s) by nia.
      destruct (new_location (Z.pos pn) r); lia. }
  unfold int_truediv. replace (n =? 0) with false by (symmetry; apply Z.eqb_neq; lia).
  destruct (SFdiv prec emax (exact c) (exact n)) as [[]|[]| |[] m e];
    simpl in Hb; try contradiction; eauto.
Qed.

Definition one : float := S754_finite false 4503599627370496 (-52).
Definition hundred : float := S754_finite false 7036874417766400 (-46).

Lemma int_truediv_diag n : 0 < n → int_truediv n n = Ok one.
Proof.
  intros H. unfold int_truediv.
  replace (n =? 0) with false by (symmetry; apply Z.eqb_neq; lia).
  destruct n as [|p|p]; [lia| |lia].
  unfold exact, SFdiv. rewrite SFdiv_core_binary_ints by lia.
  unfold div_shift. replace (Z.min _ 1074) with 53 by lia.
  rewrite Z.mul_comm, Z.div_mul, Z.mod_mul, new_location_0 by lia. reflexivity.
Qed.

(** ** Multiplication by 100 and truncation *)

Lemma float_of_int_100 : float_of_int 100 = Ok hundred.
Proof. reflexivity. Qed.

Lemma float_mul_int_100_below x :
  below (2 ^ 52) (-52) x →
  ∃ y, float_mul_int x 100 = Ok y ∧ below 7036874417766400 (-46) y.
Proof.
  intros Hx. unfold float_mul_int. rewrite float_of_int_100. simpl mbind.
  eexists; split; [reflexivity|].
  destruct x as [[]|[]| |[] m e]; simpl in Hx; try contradiction; [exact I|].
  destruct Hx as [He Hm]. unfold hundred, SFmul. change (xorb false false) with false.
  apply binary_round_aux_le; [lia|split; reflexivity|lia|lia|].
  rewrite Pos2Z.inj_mul.
  replace (-46 - (e + -46)) with (- e) by lia.
  replace (2 ^ 52 * 2 ^ (-52 - e)) with (2 ^ (- e)) in Hm
    by (rewrite <- Z.pow_add_r by lia; f_equal; lia).
  nia.
Qed.

Lemma int_of_float_below_100 y :
  below 7036874417766400 (-46) y → ∃ z, int_of_float y = Ok z ∧ 0 ≤ z ≤ 100.
Proof.
  intros Hy. destruct y as [[]|[]| |[] m e]; simpl in Hy; try contradiction.
  - exists 0. split; [reflexivity|lia].
  - destruct Hy as [He Hm]. destruct e as [|k|k]; [lia|lia|].
    eexists; split; [reflexivity|]. unfold cond_Zopp.
    rewrite Z.shiftr_div_pow2 by lia.
    assert (Hp : 0 < 2 ^ Z.pos k) by (apply Z.pow_pos_nonneg; lia).
    replace (-46 - Z.neg k) with (Z.pos k - 46) in Hm by lia.
    assert (Hm' : Z.pos m ≤ 2 ^ Z.pos k * 100).
    { replace (2 ^ Z.pos k) with (2 ^ 46 * 2 ^ (Z.pos k - 46))
        by (rewrite <- Z.pow_add_r by lia; f_equal; lia).
      change 7036874417766400 with (100 * 2 ^ 46) in Hm. lia. }
    split; [apply Z.div_pos; lia|apply Z.div_le_upper_bound; lia].
Qed.

End FloatFacts.

(** * Facts about grading *)

Module Grading.

Import FloatFacts.
Local Open Scope Z_scope.

(** An answer and the question at its position agree. *)
Definition agrees (p : Z * Question.t) : Prop := p.1 = Question.answer_index p.2.

#[global] Instance agrees_dec p : Decision (agrees p).
Proof. unfold agrees. apply _. Defined.

Definition grade_step (questions : list Question.t) (correct : Z) (p : nat * Z) : Z :=
  let '(i, ans) := p in
  if bool_decide (i < length questions)%nat
     && bool_decide (Question.answer_index <$> questions !! i = Some ans)
  then correct + 1 else correct.

Lemma count_correct_fold questions answers :
  count_correct questions answers
  = fold_left (grade_step questions) (enumerate answers) 0.
Proof. reflexivity. Qed.

Lemma grade_fold_from questions answers : ∀ k acc,
  fold_left (grade_step questions) (zip (seq k (length answers)) answers) acc
  = acc + Z.of_nat (length (filter agrees (zip answers (drop k questions)))).
Proof.
  induction answers as [|a answers IH]; intros k acc; simpl; [lia|].
  rewrite IH. destruct (questions !! k) as [q|] eqn:Hq.
  - rewrite (drop_S _ _ _ Hq). simpl zip. rewrite filter_cons.
    assert (Hlt : (k < length questions)%nat) by (eapply lookup_lt_Some; eauto).
    rewrite (bool_decide_eq_true_2 _ Hlt). simpl.
    unfold agrees at 2; simpl.
    destruct (decide (a = Question.answer_index q)) as [->|Hne].
    + rewrite bool_decide_eq_true_2 by reflexivity. simpl length. lia.
    + rewrite bool_decide_eq_false_2 by congruence. lia.
  - apply lookup_ge_None in Hq.
    rewrite (drop_ge questions k), (drop_ge questions (S k)) by lia.
    rewrite bool_decide_eq_false_2 by lia. simpl.
    destruct answers; simpl; lia.
Qed.

(** [correct] counts the positions, common to the answers and the
    questions, at which the answer is the question's [answer_index]. *)
Lemma count_correct_zip questions answers :
  count_correct questions answers
  = Z.of_nat (length (filter agrees (zip answers questions))).
Proof.
  rewrite count_correct_fold. unfold enumerate.
  rewrite grade_fold_from, drop_0. lia.
Qed.

Lemma count_correct_range questions answers :
  0 ≤ count_correct questions answers
    ≤ Z.of_nat (length answers `min` length questions).
Proof.
  rewrite count_correct_zip.
  assert (H := length_filter agrees (zip answers questions)).
  rewrite length_zip in H. lia.
Qed.

(** Answers beyond the last question do not count. *)
Lemma count_correct_excess questions answers :
  count_correct questions answers
  = count_correct questions (take (length questions) answers).
Proof.
  rewrite !count_correct_zip.
  now rewrite (zip_with_take_l pair answers questions).
Qed.

Lemma count_correct_all questions :
  count_correct questions (Question.answer_index <$> questions)
  = Z.of_nat (length questions).
Proof.
  rewrite count_correct_zip. f_equal.
  induction questions as [|q questions IH]; [reflexivity|].
  rewrite fmap_cons. cbn [zip_with]. rewrite filter_cons_True by reflexivity.
  cbn [length]. now rewrite IH.
Qed.

(** ** The percentage *)

Lemma score_percent_eq correct total :
  score_percent correct total
  = match int_truediv correct (Z.max 1 total) with
    | Ok ratio =>
        match float_mul_int ratio 100 with
        | Ok scaled => int_of_float scaled
        | Raise e => Raise e
        end
    | Raise e => Raise e
    end.
Proof. reflexivity. Qed.

Lemma score_percent_0 total : score_percent 0 total = Ok 0.
Proof.
  unfold score_percent, int_truediv.
  replace (Z.max 1 total =? 0) with false by (symmetry; apply Z.eqb_neq; lia).
  destruct (Z.max 1 total) as [|p|p] eqn:Hp; [lia| |lia]. reflexivity.
Qed.

Lemma score_percent_full n : 0 < n → score_percent n n = Ok 100.
Proof.
  intros Hn. unfold score_percent.
  replace (Z.max 1 n) with n by lia.
  rewrite int_truediv_diag by exact Hn. reflexivity.
Qed.

Lemma score_percent_range correct total :
  0 ≤ correct ≤ Z.max 1 total →
  ∃ score, score_percent correct total = Ok score ∧ 0 ≤ score ≤ 100.
Proof.
  intros [H0 Hle]. destruct (Z.eq_dec correct 0) as [->|Hne].
  - exists 0. split; [apply score_percent_0|lia].
  - destruct (int_truediv_below_1 correct (Z.max 1 total)) as (x & Hx & Bx); [lia|].
    destruct (float_mul_int_100_below x Bx) as (y & Hy & By).
    destruct (int_of_float_below_100 y By) as (z & Hz & Hrange).
    exists z. split; [|exact Hrange].
    rewrite score_percent_eq, Hx, Hy. exact Hz.
Qed.

(** ** The score of a submission

    What [submit_attempt] computes from the questions of a quiz and the
    submitted answers. *)
Definition grade (questions : list Question.t) (answers : list Z) : res Z :=
  score_percent (count_correct questions answers) (Z.of_nat (length questions)).

Lemma grade_range questions answers :
  ∃ score, grade questions answers = Ok score ∧ 0 ≤ score ≤ 100.
Proof.
  apply score_percent_range.
  assert (H := count_correct_range questions answers). lia.
Qed.

End Grading.

(** * Running handlers against the store *)

Module Run.

(** The store answers its next call. *)
Definition answering (w : World) : Prop :=
  match faults w with
  | Some _ :: _ => False
  | _ => True
  end.

(** The world after one call to the store that left it holding [s]. *)
Definition served (s : Store) (w : World) : World :=
  mkWorld s (tail (faults w)) (now w) (stdout w).

Lemma store_call_inv {A} (op : Store → A * Store) w r w' :
  store_call op w = (r, w') →
  (answering w ∧ r = Ok (op (db w)).1 ∧ w' = served (op (db w)).2 w)
  ∨ (∃ detail, ¬ answering w ∧ r = Raise (StoreFailure detail) ∧ w' = served (db w) w).
Proof.
  unfold store_call, answering, served. destruct w as [s fs t out]; simpl.
  destruct fs as [|[detail|] fs]; simpl; destruct (op s) as [a s'] eqn:Hop; simpl;
    intros [= <- <-]; eauto 10.
Qed.

Lemma store_call_answering {A} (op : Store → A * Store) w :
  answering w → store_call op w = (Ok (op (db w)).1, served (op (db w)).2 w).
Proof.
  intros Hw. destruct (store_call op w) as [r w'] eqn:Hc.
  apply store_call_inv in Hc as [(_ & -> & ->)|(d & Hn & _)]; [reflexivity|tauto].
Qed.

Lemma get_documents_inv {D} (c : collection D) f limit w r w' :
  get_documents c f limit w = (r, w') →
  w' = served (db w) w
  ∧ ((answering w ∧ r = Ok (take limit (filter (λ d, f d = true) (docs c (db w)))))
     ∨ (∃ detail, ¬ answering w ∧ r = Raise (StoreFailure detail))).
Proof.
  unfold get_documents. intros H.
  apply store_call_inv in H as [(? & -> & ->)|(d & ? & -> & ->)]; simpl; eauto 10.
Qed.

Lemma create_document_inv {D} (c : collection D) data w r w' :
  create_document c data w = (r, w') →
  (answering w ∧ r = Ok (data (fresh_id (db w)))
   ∧ w' = served (insert_doc c (data (fresh_id (db w))) (db w)) w)
  ∨ (∃ detail, ¬ answering w ∧ r = Raise (StoreFailure detail) ∧ w' = served (db w) w).
Proof.
  unfold create_document. intros H.
  apply store_call_inv in H as [(? & -> & ->)|(d & ? & -> & ->)]; simpl; eauto 10.
Qed.

Lemma docs_insert_doc {D} (c : collection D) d s :
  docs c (insert_doc c d s) = docs c s ++ [d].
Proof. now destruct c. Qed.

Lemma bind_inv {A B} (m : M A) (k : A → M B) w r w' :
  (m ≫= k) w = (r, w') →
  (∃ a w1, m w = (Ok a, w1) ∧ k a w1 = (r, w'))
  ∨ (∃ e, m w = (Raise e, w') ∧ r = Raise e).
Proof.
  unfold mbind, M_bind. destruct (m w) as [[a|e] w1]; [eauto|].
  intros [= <- <-]. eauto.
Qed.

Lemma filter_bool_decide {A} (P : A → Prop) `{!∀ x, Decision (P x)} (l : list A) :
  filter (λ x, bool_decide (P x) = true) l = filter P l.
Proof. apply list_filter_iff. intros x. apply bool_decide_eq_true. Qed.

(** ** [submit_attempt], step by step *)

Import Grading.

(** [quizzes[0]] of the lookup by identifier. *)
Definition quiz_with_id (quiz_id : string) (s : Store) : option QuizDoc.t :=
  head (filter (λ d, QuizDoc._id d = quiz_id) (quiz_docs s)).

(** The attempt document that [submit_attempt] stores. *)
Definition attempt_doc (quiz_id : string) (payload : SubmitAttempt.t)
    (score : Z) (w : World) : AttemptDoc.t :=
  AttemptDoc.mk (fresh_id (db w)) (SubmitAttempt.user_email payload)
    (Some quiz_id) (SubmitAttempt.answers payload) (Some score) (Some (now w)).

Lemma submit_attempt_inv quiz_id payload w r w' :
  submit_attempt quiz_id payload w = (r, w') →
  (¬ answering w ∧ (∃ detail, r = Raise (StoreFailure detail)) ∧ w' = served (db w) w)
  ∨ (answering w ∧ quiz_with_id quiz_id (db w) = None
     ∧ r = Raise (HTTPException 404 "Quiz not found") ∧ w' = served (db w) w)
  ∨ (answering w ∧ ∃ quiz score,
       quiz_with_id quiz_id (db w) = Some quiz
       ∧ grade (QuizDoc.questions quiz) (SubmitAttempt.answers payload) = Ok score
       ∧ ((¬ answering (served (db w) w)
           ∧ (∃ detail, r = Raise (StoreFailure detail))
           ∧ w' = served (db w) (served (db w) w))
          ∨ (answering (served (db w) w)
             ∧ r = Ok (mkAttemptResult score
                         (count_correct (QuizDoc.questions quiz)
                            (SubmitAttempt.answers payload))
                         (Z.of_nat (length (QuizDoc.questions quiz))))
             ∧ w' = served (insert_doc c_attempt
                              (attempt_doc quiz_id payload score w) (db w))
                      (served (db w) w)))).
Proof.
  intros H. unfold submit_attempt in H.
  apply bind_inv in H as [(found & w1 & Hget & Hrest)|(e & Hget & ->)].
  2:{ apply get_documents_inv in Hget as [-> [(_ & [=])|(d & Hn & [= ->])]].
      left. eauto. }
  apply get_documents_inv in Hget as [-> [(Ha & [= ->])|(d & _ & [=])]].
  right. simpl docs in Hrest. rewrite filter_bool_decide in Hrest.
  unfold quiz_with_id.
  destruct (filter (λ d, QuizDoc._id d = quiz_id) (quiz_docs (db w)))
    as [|quiz others]; simpl take in Hrest; simpl head.
  { left. unfold raise in Hrest. injection Hrest as <- <-. auto. }
  right. split; [exact Ha|]. cbv zeta in Hrest.
  destruct (grade_range (QuizDoc.questions quiz) (SubmitAttempt.answers payload))
    as (score & Hscore & _).
  exists quiz, score. split; [reflexivity|]. split; [exact Hscore|].
  unfold grade in Hscore.
  apply bind_inv in Hrest as [(score' & w2 & Hlift & Hrest)|(e & Hlift & _)].
  2:{ unfold lift in Hlift. rewrite Hscore in Hlift. discriminate Hlift. }
  unfold lift in Hlift. rewrite Hscore in Hlift. injection Hlift as <- <-.
  apply bind_inv in Hrest as [(created & w3 & Hnow & Hrest)|(e & Hnow & _)];
    [|discriminate Hnow].
  unfold utcnow in Hnow. injection Hnow as <- <-.
  apply bind_inv in Hrest as [(a & w4 & Hcreate & Hret)|(e & Hcreate & ->)].
  - apply create_document_inv in Hcreate as [(Ha1 & [= ->] & ->)|(d & _ & [=] & _)].
    right. injection Hret as <- <-. auto.
  - apply create_document_inv in Hcreate as [(_ & [=] & _)|(d & Hn & [= ->] & ->)].
    left. eauto.
Qed.

(** Running handlers one after the other, whatever each returns. *)
Definition exec_all (ms : list (M unit)) (w : World) : World :=
  fold_left (λ w m, (m w).2) ms w.

End Run.

(** * Facts about seeding *)

Module Seed.

Import Run.

(** The shape shared by [ensure_track], [ensure_lesson] and
    [ensure_quiz]: look for a document with the natural key, create the
    document if there is none. *)
Definition ensure {D} (c : collection D) (key : D → bool) (data : string → D)
    : M unit :=
  existing ← get_documents c key 1;
  match existing with
  | [] => create_document c data ≫= λ _, mret ()
  | _ :: _ => mret ()
  end.

(** The stored documents of a collection that have the natural key. *)
Definition with_key {D} (c : collection D) (key : D → bool) (s : Store) : list D :=
  filter (λ d, key d = true) (docs c s).

Lemma ensure_track_ensure track :
  ensure_track track
  = ensure c_track (λ d, bool_decide (TrackDoc.slug d = Track.slug track))
      (Track_model_dump track).
Proof. reflexivity. Qed.

Lemma ensure_lesson_ensure lesson :
  ensure_lesson lesson
  = ensure c_lesson (λ d, bool_decide (LessonDoc.slug d = Lesson.slug lesson))
      (Lesson_model_dump lesson).
Proof. reflexivity. Qed.

Lemma ensure_quiz_ensure quiz :
  ensure_quiz quiz
  = ensure c_quiz (λ d, bool_decide (QuizDoc.lesson_slug d = Quiz.lesson_slug quiz))
      (Quiz_model_dump quiz).
Proof. reflexivity. Qed.

Lemma ensure_inv {D} (c : collection D) key data w r w' :
  ensure c key data w = (r, w') →
  (with_key c key (db w) ≠ [] ∧ db w' = db w)
  ∨ (with_key c key (db w) = [] ∧ (∃ e, r = Raise e) ∧ db w' = db w)
  ∨ (with_key c key (db w) = [] ∧ r = Ok ()
     ∧ db w' = insert_doc c (data (fresh_id (db w))) (db w)).
Proof.
  intros H. unfold ensure in H.
  apply bind_inv in H as [(existing & w1 & Hget & Hrest)|(e & Hget & ->)].
  2:{ apply get_documents_inv in Hget as [-> _].
      destruct (with_key c key (db w)) eqn:Hk; [right; left; eauto|left; easy]. }
  apply get_documents_inv in Hget as [-> [(_ & [= ->])|(d & _ & [=])]].
  fold (with_key c key (db w)) in Hrest.
  destruct (with_key c key (db w)) as [|d l]; simpl take in Hrest.
  - right. apply bind_inv in Hrest as [(a & w2 & Hcreate & Hret)|(e & Hcreate & ->)].
    + apply create_document_inv in Hcreate as [(_ & [= ->] & ->)|(d & _ & [=] & _)].
      injection Hret as <- <-. right. auto.
    + apply create_document_inv in Hcreate as [(_ & [=] & _)|(d & _ & _ & ->)].
      left. eauto.
  - left. injection Hrest as <- <-. easy.
Qed.

Lemma with_key_insert_doc {D} (c : collection D) key d s :
  key d = true → with_key c key (insert_doc c d s) = with_key c key s ++ [d].
Proof.
  intros Hk. unfold with_key.
  rewrite docs_insert_doc, filter_app. f_equal. now rewrite filter_cons_True.
Qed.

(** After an invocation that returned, the key has the documents it had,
    or exactly one if it had none. *)
Lemma ensure_returned {D} (c : collection D) key data w w' :
  (∀ id, key (data id) = true) →
  ensure c key data w = (Ok (), w') →
  length (with_key c key (db w')) = length (with_key c key (db w)) `max` 1.
Proof.
  intros Hkey H.
  apply ensure_inv in H as [(Hne & Hdb)|[(_ & [e [=]] & _)|(Hnil & _ & Hdb)]];
    rewrite Hdb.
  - destruct (with_key c key (db w)); [contradiction|simpl; lia].
  - rewrite with_key_insert_doc, Hnil by apply Hkey. reflexivity.
Qed.

(** Once the key has a document, invocations leave the store as it is,
    whether they return or fail. *)
Lemma ensure_present {D} (c : collection D) key data w :
  with_key c key (db w) ≠ [] → db (ensure c key data w).2 = db w.
Proof.
  intros Hne. destruct (ensure c key data w) as [r w'] eqn:H.
  apply ensure_inv in H as [(_ & Hdb)|[(Hnil & _)|(Hnil & _)]]; easy.
Qed.

Lemma ensure_present_all {D} (c : collection D) key data n : ∀ w,
  with_key c key (db w) ≠ [] →
  db (exec_all (replicate n (ensure c key data)) w) = db w.
Proof.
  induction n as [|n IH]; intros w Hne; [reflexivity|].
  simpl. rewrite IH; rewrite ensure_present by exact Hne; [reflexivity|exact Hne].
Qed.

(** What the claim of idempotence comes to for one of the three
    helpers. *)
Lemma ensure_idempotent {D} (c : collection D) key data w w' later :
  (∀ id, key (data id) = true) →
  ensure c key data w = (Ok (), w') →
  length (with_key c key (db w)) ≤ 1 →
  length (with_key c key (db w')) = 1
  ∧ db (exec_all (replicate later (ensure c key data)) w') = db w'.
Proof.
  intros Hkey Hrun Hle.
  assert (H1 : length (with_key c key (db w')) = 1)
    by (rewrite (ensure_returned c key data w w' Hkey Hrun); lia).
  split; [exact H1|]. apply ensure_present_all.
  intros Hnil. rewrite Hnil in H1. discriminate H1.
Qed.

(** ** Nothing but [print] writes to standard output *)

Definition quiet {A} (m : M A) : Prop :=
  ∀ w r w', m w = (r, w') → stdout w' = stdout w.

Lemma quiet_bind {A B} (m : M A) (k : A → M B) :
  quiet m → (∀ a, quiet (k a)) → quiet (m ≫= k).
Proof.
  intros Hm Hk w r w' H.
  apply bind_inv in H as [(a & w1 & H1 & H2)|(e & H1 & _)].
  - rewrite (Hk _ _ _ _ H2). eapply Hm, H1.
  - eapply Hm, H1.
Qed.

Lemma quiet_ret {A} (a : A) : quiet (mret a).
Proof. intros w r w' [= _ <-]. reflexivity. Qed.

Lemma quiet_store_call {A} (op : Store → A * Store) : quiet (store_call op).
Proof.
  intros w r w' H.
  apply store_call_inv in H as [(_ & _ & ->)|(d & _ & _ & ->)]; reflexivity.
Qed.

Lemma quiet_ensure {D} (c : collection D) key data : quiet (ensure c key data).
Proof.
  apply quiet_bind; [apply quiet_store_call|]. intros [|d l]; [|apply quiet_ret].
  apply quiet_bind; [apply quiet_store_call|]. intros _. apply quiet_ret.
Qed.

Lemma quiet_for_each {A} (xs : list A) (f : A → M unit) :
  (∀ x, quiet (f x)) → quiet (for_each xs f).
Proof.
  intros Hf. induction xs as [|x xs IH]; [apply quiet_ret|].
  simpl. apply quiet_bind; [apply Hf|]. intros _. exact IH.
Qed.

End Seed.

(** * Facts about progress aggregation *)

Module Progress.

Import Run.

Local Open Scope Z_scope.

(** The scores, in stored order, of the attempts at one quiz; an attempt
    without a score counts as 0. *)
Definition scores_of (qid : option string) (atts : list AttemptDoc.t) : list Z :=
  score_or_0 <$> filter (λ a, AttemptDoc.quiz_id a = qid) atts.

(** [best] is the maximum of [scores]: one of them and at least each of
    them, or nothing when there are none. *)
Definition is_max_of (scores : list Z) (best : option Z) : Prop :=
  match best with
  | None => scores = []
  | Some b => b ∈ scores ∧ Forall (λ s, s ≤ b) scores
  end.

Definition merge (best : option Z) (s : Z) : option Z :=
  Some (match best with None => s | Some b => Z.max b s end).

(** The entries of [by_quiz] that count as completed. *)
Definition passed (kv : option string * Z) : Prop := 70 ≤ kv.2.

#[global] Instance passed_dec kv : Decision (passed kv).
Proof. unfold passed. apply _. Defined.

Definition with_score_0 (a : AttemptDoc.t) : AttemptDoc.t :=
  AttemptDoc.mk (AttemptDoc._id a) (AttemptDoc.user_email a) (AttemptDoc.quiz_id a)
    (AttemptDoc.answers a) (Some 0) (AttemptDoc.created_at a).

Lemma progress_step_lookup (m : gmap (option string) Z) a qid :
  progress_step m a !! qid
  = if decide (AttemptDoc.quiz_id a = qid) then merge (m !! qid) (score_or_0 a)
    else m !! qid.
Proof.
  unfold progress_step, merge.
  destruct (m !! AttemptDoc.quiz_id a) as [b|] eqn:Hb.
  - destruct (Z.gtb_spec (score_or_0 a) b) as [Hlt|Hle].
    + rewrite lookup_insert. case_decide; [|reflexivity].
      subst qid. rewrite Hb. f_equal. lia.
    + case_decide; [|reflexivity]. subst qid. rewrite Hb. f_equal. lia.
  - rewrite lookup_insert. case_decide; [|reflexivity]. subst qid. now rewrite Hb.
Qed.

Lemma fold_progress_lookup atts : ∀ (m : gmap (option string) Z) qid,
  fold_left progress_step atts m !! qid
  = fold_left merge (scores_of qid atts) (m !! qid).
Proof.
  induction atts as [|a atts IH]; intros m qid; [reflexivity|].
  simpl. rewrite IH, progress_step_lookup. unfold scores_of.
  rewrite filter_cons. case_decide; reflexivity.
Qed.

Lemma merge_is_max pre best s :
  is_max_of pre best → is_max_of (pre ++ [s]) (merge best s).
Proof.
  destruct best as [b|]; simpl.
  - intros [Hin Hall]. split.
    + apply elem_of_app.
      destruct (Z.max_spec b s) as [[_ ->]|[_ ->]]; [right; left|left; exact Hin].
    + apply Forall_app. split.
      * eapply Forall_impl; [exact Hall|]. intros x Hx. simpl in Hx. lia.
      * constructor; [lia|constructor].
  - intros ->. split; [left|]. constructor; [lia|constructor].
Qed.

Lemma fold_merge_is_max scores : ∀ pre best,
  is_max_of pre best → is_max_of (pre ++ scores) (fold_left merge scores best).
Proof.
  induction scores as [|s scores IH]; intros pre best H; simpl.
  - now rewrite app_nil_r.
  - rewrite cons_middle, app_assoc. apply IH, merge_is_max, H.
Qed.

(** [by_quiz] maps each quiz identifier to the maximum of the scores of
    the attempts at it. *)
Lemma by_quiz_is_max atts qid :
  is_max_of (scores_of qid atts) (fold_left progress_step atts ∅ !! qid).
Proof.
  rewrite fold_progress_lookup, lookup_empty.
  apply (fold_merge_is_max _ [] None). reflexivity.
Qed.

Lemma count_completed_list (m : gmap (option string) Z) :
  count_completed m = length (filter passed (map_to_list m)).
Proof.
  unfold count_completed. induction (map_to_list m) as [|[k s] l IH]; [reflexivity|].
  rewrite fmap_cons, !filter_cons. unfold passed at 1. simpl.
  destruct (decide (s >= 70)), (decide (70 ≤ s)); try lia; simpl; now rewrite IH.
Qed.

(** [completed] is the number of quiz identifiers whose best score is at
    least 70. *)
Lemma count_completed_size (m : gmap (option string) Z) :
  count_completed m = size (filter passed m).
Proof.
  rewrite count_completed_list.
  induction m as [|k s m Hk _ IH] using map_first_key_ind.
  - now rewrite map_to_list_empty, map_filter_empty, map_size_empty.
  - rewrite map_to_list_insert by exact Hk. rewrite filter_cons.
    destruct (decide (passed (k, s))) as [Hp|Hp].
    + rewrite map_filter_insert_True by exact Hp.
      rewrite map_size_insert_None by (apply map_lookup_filter_None; auto).
      simpl. now rewrite IH.
    + rewrite map_filter_insert_not' by (exact Hp || congruence). exact IH.
Qed.

Lemma get_progress_inv email w r w' :
  get_progress email w = (r, w') →
  w' = served (db w) w
  ∧ ((answering w
      ∧ r = Ok (let by_quiz :=
                  fold_left progress_step
                    (take 1000 (filter (λ a, AttemptDoc.user_email a = email)
                                  (attempt_docs (db w)))) ∅ in
                mkProgress (count_completed by_quiz) by_quiz))
     ∨ (¬ answering w ∧ ∃ detail, r = Raise (StoreFailure detail))).
Proof.
  intros H. unfold get_progress in H.
  apply bind_inv in H as [(atts & w1 & Hget & Hret)|(e & Hget & ->)].
  - apply get_documents_inv in Hget as [-> [(Ha & [= ->])|(d & _ & [=])]].
    injection Hret as <- <-. split; [reflexivity|]. left. split; [exact Ha|].
    simpl docs. now rewrite filter_bool_decide.
  - apply get_documents_inv in Hget as [-> [(_ & [=])|(d & Hn & [= ->])]].
    split; [reflexivity|]. right. eauto.
Qed.

End Progress.

(** * Facts about sorting and listing lessons *)

Module Lessons.

Import Run.

Local Open Scope Z_scope.

Section SortBy.
Context {A : Type} (key : A → Z).

(** [x] may stand before [y]. *)
Definition key_le (x y : A) : Prop := key x ≤ key y.

Lemma insert_by_perm x l : insert_by key x l ≡ₚ x :: l.
Proof.
  induction l as [|y l IH]; [reflexivity|]. simpl.
  destruct (key x <=? key y); [reflexivity|].
  rewrite IH. apply Permutation_swap.
Qed.

Lemma sort_by_perm l : sort_by key l ≡ₚ l.
Proof.
  induction l as [|x l IH]; [reflexivity|].
  unfold sort_by in *. simpl. now rewrite insert_by_perm, IH.
Qed.

Lemma insert_by_sorted x l :
  StronglySorted key_le l → StronglySorted key_le (insert_by key x l).
Proof.
  induction 1 as [|y l Hl IH Hy]; simpl.
  - repeat constructor.
  - destruct (Z.leb_spec (key x) (key y)) as [Hle|Hgt].
    + constructor; [constructor; assumption|].
      constructor; [exact Hle|].
      eapply Forall_impl; [exact Hy|]. unfold key_le. intros z Hz. lia.
    + constructor; [exact IH|].
      rewrite insert_by_perm. constructor; [unfold key_le; lia|exact Hy].
Qed.

Lemma sort_by_sorted l : StronglySorted key_le (sort_by key l).
Proof.
  induction l as [|x l IH]; [constructor|].
  unfold sort_by in *. simpl. apply insert_by_sorted, IH.
Qed.

(** The sort is stable: items with equal keys keep their order. *)
Lemma insert_by_stable k x l :
  filter (λ y, key y = k) (insert_by key x l) = filter (λ y, key y = k) (x :: l).
Proof.
  induction l as [|y l IH]; [reflexivity|]. simpl.
  destruct (Z.leb_spec (key x) (key y)) as [Hle|Hgt]; [reflexivity|].
  rewrite filter_cons, IH, !filter_cons.
  destruct (decide (key y = k)), (decide (key x = k)); try reflexivity. lia.
Qed.

Lemma sort_by_stable k l :
  filter (λ y, key y = k) (sort_by key l) = filter (λ y, key y = k) l.
Proof.
  induction l as [|x l IH]; [reflexivity|].
  unfold sort_by in *. simpl. rewrite insert_by_stable, !filter_cons, IH.
  reflexivity.
Qed.
End SortBy.

Lemma list_lessons_inv slug w r w' :
  list_lessons slug w = (r, w') →
  w' = served (db w) w
  ∧ ((answering w
      ∧ r = Ok (sort_by order_key
                  (take 200 (filter (λ d, LessonDoc.track_slug d = slug)
                               (lesson_docs (db w))))))
     ∨ (¬ answering w ∧ ∃ detail, r = Raise (StoreFailure detail))).
Proof.
  intros H. unfold list_lessons in H.
  apply bind_inv in H as [(items & w1 & Hget & Hret)|(e & Hget & ->)].
  - apply get_documents_inv in Hget as [-> [(Ha & [= ->])|(d & _ & [=])]].
    injection Hret as <- <-. split; [reflexivity|]. left. split; [exact Ha|].
    simpl docs. now rewrite filter_bool_decide.
  - apply get_documents_inv in Hget as [-> [(_ & [=])|(d & Hn & [= ->])]].
    split; [reflexivity|]. right. eauto.
Qed.

End Lessons.

(** * Properties of [submit_attempt] *)

Import FloatFacts Grading Run Seed Progress Lessons.

(** With a store that answers, a submission to a known quiz is graded and
    stored. *)
Lemma submit_attempt_ok quiz_id payload w quiz score :
  answering w → answering (served (db w) w) →
  quiz_with_id quiz_id (db w) = Some quiz →
  grade (QuizDoc.questions quiz) (SubmitAttempt.answers payload) = Ok score →
  submit_attempt quiz_id payload w
  = (Ok (mkAttemptResult score
           (count_correct (QuizDoc.questions quiz) (SubmitAttempt.answers payload))
           (Z.of_nat (length (QuizDoc.questions quiz)))),
     served (insert_doc c_attempt (attempt_doc quiz_id payload score w) (db w))
       (served (db w) w)).
Proof.
  intros Ha Ha1 Hq Hg.
  destruct (submit_attempt quiz_id payload w) as [r w'] eqn:Hrun.
  apply submit_attempt_inv in Hrun
    as [(Hn & _)|[(_ & Hnone & _)
       |(_ & quiz' & score' & Hq' & Hg' & [(Hn & _)|(_ & -> & ->)])]];
    try tauto; [congruence|].
  assert (quiz' = quiz) as -> by congruence.
  assert (score' = score) as -> by congruence. reflexivity.
Qed.

Lemma submit_attempt_returns quiz_id payload w quiz :
  answering w → answering (served (db w) w) →
  quiz_with_id quiz_id (db w) = Some quiz →
  ∃ r w', submit_attempt quiz_id payload w = (Ok r, w').
Proof.
  intros Ha Ha1 Hq.
  destruct (grade_range (QuizDoc.questions quiz) (SubmitAttempt.answers payload))
    as (score & Hg & _).
  rewrite (submit_attempt_ok quiz_id payload w quiz score Ha Ha1 Hq Hg). eauto.
Qed.

Lemma int_truediv_max_1 correct total :
  int_truediv correct (Z.max 1 total) ≠ Raise ZeroDivisionError.
Proof.
  unfold int_truediv.
  replace (Z.max 1 total =? 0)%Z with false by (symmetry; apply Z.eqb_neq; lia).
  now destruct (SFdiv prec emax (exact correct) (exact (Z.max 1 total))).
Qed.

(** A quiz of fifty questions, all with answer 0, and a submission that
    has the first 29 right. *)
Definition quiz_50 : QuizDoc.t :=
  QuizDoc.mk "q50" "unit-x" "Fifty questions"
    (replicate 50 (Question.mk "?" ["yes"; "no"] 0 None)).

Definition world_50 : World := mkWorld (mkStore [] [] [quiz_50] [] 1) [] 0 [].

Definition payload_29_of_50 : SubmitAttempt.t :=
  SubmitAttempt.mk "learner@example.org" (replicate 29 0%Z ++ replicate 21 1%Z).

(** The percentage in the spec's words:
    [floor(100 * correct_count / max(1, total_count))]. *)
Definition spec_score_percent (correct total : Z) : Z :=
  (100 * correct / Z.max 1 total)%Z.

(** The floats on the way from 29 right answers out of 50 to the score:
    [29 / 50] is [0x1.28f5c28f5c28fp-1], below 0.58, and its product with
    100 is [0x1.cffffffffffffp+5], that is 57.99999999999999. *)
Lemma floats_29_of_50 :
  int_truediv 29 50 = Ok (S754_finite false 5224175567749775 (-53))
  ∧ float_mul_int (S754_finite false 5224175567749775 (-53)) 100
    = Ok (S754_finite false 8162774324609023 (-47))
  ∧ int_of_float (S754_finite false 8162774324609023 (-47)) = Ok 57%Z.
Proof.
  split; [vm_compute; reflexivity|]. split; vm_compute; reflexivity.
Qed.

(** C1, at a failing input: 29 right answers out of 50 are graded 57,
    where [floor(100 * 29 / max(1, 50))] is 58.  The code divides first, in
    binary64: [29 / 50] rounds to a float just below 0.58, the product with
    100 to one just below 58, and [int] truncates. *)
Theorem submit_attempt_29_of_50 :
  (submit_attempt "q50" payload_29_of_50 world_50).1
  = Ok (mkAttemptResult 57 29 50)
  ∧ score_percent 29 50 = Ok 57%Z
  ∧ spec_score_percent 29 50 = 58%Z.
Proof.
  split; [vm_compute; reflexivity|]. split; vm_compute; reflexivity.
Qed.

(** What else C1 says holds for every submission that is graded:
    [correct] is the number of positions, common to the answers and the
    questions, at which they agree, [total] is the number of questions, and
    the answers beyond the last question change nothing. *)
Lemma submit_attempt_counts quiz_id payload w r w' :
  submit_attempt quiz_id payload w = (Ok r, w') →
  ∃ quiz, quiz_with_id quiz_id (db w) = Some quiz
    ∧ r_correct r
      = Z.of_nat (length (filter agrees
                            (zip (SubmitAttempt.answers payload)
                                 (QuizDoc.questions quiz))))
    ∧ r_total r = Z.of_nat (length (QuizDoc.questions quiz))
    ∧ (submit_attempt quiz_id
         (SubmitAttempt.mk (SubmitAttempt.user_email payload)
            (take (length (QuizDoc.questions quiz)) (SubmitAttempt.answers payload)))
         w).1 = Ok r.
Proof.
  intros Hrun.
  apply submit_attempt_inv in Hrun
    as [(_ & [d [=]] & _)|[(_ & _ & [=] & _)
       |(Ha & quiz & score & Hq & Hg & [(_ & [d [=]] & _)|(Ha1 & [= ->] & ->)])]].
  exists quiz. split; [exact Hq|]. simpl r_correct. simpl r_total.
  split; [apply count_correct_zip|]. split; [reflexivity|].
  set (payload' := SubmitAttempt.mk _ _).
  unfold grade in Hg. rewrite count_correct_excess in Hg.
  rewrite (submit_attempt_ok quiz_id payload' w quiz score Ha Ha1 Hq Hg).
  simpl. now rewrite <- count_correct_excess.
Qed.

(** C2: the score that [submit_attempt] returns and stores lies in
    [0, 100]; it is [grade] of the quiz's questions and the submitted
    answers, so another submission of the same answers against the same
    questions gets the same score. *)
Theorem submit_attempt_score_in_range quiz_id payload w r w' :
  submit_attempt quiz_id payload w = (Ok r, w') →
  (0 ≤ r_score r ≤ 100)%Z
  ∧ attempt_docs (db w')
    = attempt_docs (db w) ++ [attempt_doc quiz_id payload (r_score r) w]
  ∧ (∃ quiz, quiz_with_id quiz_id (db w) = Some quiz
       ∧ grade (QuizDoc.questions quiz) (SubmitAttempt.answers payload)
         = Ok (r_score r))
  ∧ ∀ quiz_id2 payload2 w2 r2 w2',
      submit_attempt quiz_id2 payload2 w2 = (Ok r2, w2') →
      SubmitAttempt.answers payload2 = SubmitAttempt.answers payload →
      QuizDoc.questions <$> quiz_with_id quiz_id2 (db w2)
      = QuizDoc.questions <$> quiz_with_id quiz_id (db w) →
      r_score r2 = r_score r.
Proof.
  intros Hrun.
  apply submit_attempt_inv in Hrun
    as [(_ & [d [=]] & _)|[(_ & _ & [=] & _)
       |(_ & quiz & score & Hq & Hg & [(_ & [d [=]] & _)|(_ & [= ->] & ->)])]].
  simpl r_score.
  destruct (grade_range (QuizDoc.questions quiz) (SubmitAttempt.answers payload))
    as (score' & Hg' & Hrange).
  assert (score' = score) as -> by congruence.
  split; [exact Hrange|]. split; [reflexivity|]. split; [eauto|].
  intros quiz_id2 payload2 w2 r2 w2' Hrun2 Hans Hqs.
  apply submit_attempt_inv in Hrun2
    as [(_ & [d [=]] & _)|[(_ & _ & [=] & _)
       |(_ & quiz2 & score2 & Hq2 & Hg2 & [(_ & [d [=]] & _)|(_ & [= ->] & ->)])]].
  simpl r_score. rewrite Hq, Hq2 in Hqs. injection Hqs as Hqs.
  rewrite Hans, Hqs in Hg2. congruence.
Qed.

(** C3: for a quiz identifier that no quiz document has, [submit_attempt]
    raises, the store is left as it was, and whenever the store answers the
    lookup the exception is [HTTPException(404, "Quiz not found")]. *)
Theorem submit_attempt_unknown_quiz quiz_id payload w :
  (∀ d, d ∈ quiz_docs (db w) → QuizDoc._id d ≠ quiz_id) →
  ∃ e w', submit_attempt quiz_id payload w = (Raise e, w')
    ∧ db w' = db w
    ∧ attempt_docs (db w') = attempt_docs (db w)
    ∧ (answering w → e = HTTPException 404 "Quiz not found").
Proof.
  intros Hno.
  assert (Hnone : quiz_with_id quiz_id (db w) = None).
  { unfold quiz_with_id.
    destruct (filter _ (quiz_docs (db w))) as [|d l] eqn:Hf; [reflexivity|].
    assert (Hd : d ∈ filter (λ d, QuizDoc._id d = quiz_id) (quiz_docs (db w)))
      by (rewrite Hf; left).
    apply list_elem_of_filter in Hd as [Hid Hin]. now apply Hno in Hin. }
  destruct (submit_attempt quiz_id payload w) as [r w'] eqn:Hrun.
  apply submit_attempt_inv in Hrun
    as [(Hn & [d ->] & ->)|[(_ & _ & -> & ->)|(_ & quiz & score & Hq & _)]].
  - eexists _, _. split; [reflexivity|]. repeat split. tauto.
  - eexists _, _. split; [reflexivity|]. repeat split.
  - congruence.
Qed.

(** The seeded store: what [seed_data] leaves when it starts from an empty
    store that answers every call. *)
Definition seeded : World := (seed_data (mkWorld empty_store [] 0 [])).2.

Lemma submit_attempt_score_in_range_witness :
  (0 ≤ 100 ≤ 100)%Z
  ∧ ∃ quiz, quiz_with_id "10" (db seeded) = Some quiz
      ∧ grade (QuizDoc.questions quiz) [1%Z] = Ok 100%Z.
Proof.
  destruct (submit_attempt "10" (SubmitAttempt.mk "learner@example.org" [1%Z]) seeded)
    as [r w'] eqn:Hrun.
  assert (Hr : r = Ok (mkAttemptResult 100 1 1)).
  { apply (f_equal fst) in Hrun. vm_compute in Hrun. congruence. }
  rewrite Hr in Hrun.
  destruct (submit_attempt_score_in_range _ _ _ _ _ Hrun) as (Hrange & _ & Hq & _).
  split; [exact Hrange|exact Hq].
Defined.

Lemma submit_attempt_unknown_quiz_witness :
  ∃ e w', submit_attempt "nope" payload_29_of_50 world_50 = (Raise e, w')
    ∧ db w' = db world_50
    ∧ attempt_docs (db w') = attempt_docs (db world_50)
    ∧ (answering world_50 → e = HTTPException 404 "Quiz not found").
Proof.
  apply (submit_attempt_unknown_quiz "nope" payload_29_of_50 world_50).
  intros d Hd. apply list_elem_of_singleton in Hd as ->. discriminate.
Defined.

(** A question's [answer_index] is an index into its options. *)
Definition valid_answer_index (q : Question.t) : Prop :=
  (0 ≤ Question.answer_index q < Z.of_nat (length (Question.options q)))%Z.

(** A quiz without questions. *)
Definition quiz_0 : QuizDoc.t := QuizDoc.mk "q0" "unit-x" "No questions" [].

Definition world_0 : World := mkWorld (mkStore [] [] [quiz_0] [] 1) [] 0 [].

(** C7 as stated fails on the quiz without questions: its answers are
    (vacuously) valid, the empty submission is its sequence of right
    answers, and the score is 0. *)
Lemma submit_attempt_all_correct_counterexample :
  quiz_with_id "q0" (db world_0) = Some quiz_0
  ∧ Forall valid_answer_index (QuizDoc.questions quiz_0)
  ∧ (submit_attempt "q0"
       (SubmitAttempt.mk "learner@example.org"
          (Question.answer_index <$> QuizDoc.questions quiz_0)) world_0).1
    = Ok (mkAttemptResult 0 0 0).
Proof.
  split; [reflexivity|]. split; [constructor|]. vm_compute; reflexivity.
Qed.

(** C7, amended: for a quiz with at least one question, submitting
    exactly the sequence of its [answer_index] values is graded 100, with
    as many right answers as questions.  (Validity of the indices plays no
    part in grading.) *)
Theorem submit_attempt_all_correct quiz_id payload w r w' quiz :
  submit_attempt quiz_id payload w = (Ok r, w') →
  quiz_with_id quiz_id (db w) = Some quiz →
  QuizDoc.questions quiz ≠ [] →
  SubmitAttempt.answers payload = Question.answer_index <$> QuizDoc.questions quiz →
  r_score r = 100%Z
  ∧ r_correct r = r_total r
  ∧ r_total r = Z.of_nat (length (QuizDoc.questions quiz)).
Proof.
  intros Hrun Hq Hne Hans.
  apply submit_attempt_inv in Hrun
    as [(_ & [d [=]] & _)|[(_ & _ & [=] & _)
       |(_ & quiz' & score & Hq' & Hg & [(_ & [d [=]] & _)|(_ & [= ->] & ->)])]].
  assert (quiz' = quiz) as -> by congruence.
  simpl. rewrite Hans, count_correct_all. split; [|split; reflexivity].
  unfold grade in Hg. rewrite Hans, count_correct_all in Hg.
  rewrite score_percent_full in Hg; [congruence|].
  destruct (QuizDoc.questions quiz); [contradiction|simpl; lia].
Qed.

Lemma submit_attempt_all_correct_witness :
  (100 = 100 ∧ 1 = 1 ∧ 1 = Z.of_nat 1)%Z.
Proof.
  destruct (submit_attempt "10" (SubmitAttempt.mk "learner@example.org" [1%Z]) seeded)
    as [r w'] eqn:Hrun.
  assert (Hr : r = Ok (mkAttemptResult 100 1 1)).
  { apply (f_equal fst) in Hrun. vm_compute in Hrun. congruence. }
  rewrite Hr in Hrun.
  assert (Hq : ∃ quiz, quiz_with_id "10" (db seeded) = Some quiz
                 ∧ QuizDoc.questions quiz
                   = [Question.mk "Which operator in Relational Algebra filters rows?"
                        ["Projection (π)"; "Selection (σ)"; "Union (∪)"; "Join (⨝)"]
                        1 None])
    by (eexists; split; vm_compute; reflexivity).
  destruct Hq as (quiz & Hq & Hqs).
  assert (H := submit_attempt_all_correct _ _ _ _ _ quiz Hrun Hq).
  rewrite Hqs in H. apply H; [discriminate|reflexivity].
Defined.

(** C8: for a quiz without questions the divisor is [max(1, 0) = 1]: no
    outcome of [submit_attempt] is a [ZeroDivisionError], every result has
    score 0, and when the store answers there is a result. *)
Theorem submit_attempt_no_questions quiz_id payload w quiz :
  quiz_with_id quiz_id (db w) = Some quiz →
  QuizDoc.questions quiz = [] →
  grade (QuizDoc.questions quiz) (SubmitAttempt.answers payload) = Ok 0%Z
  ∧ (∀ r w', submit_attempt quiz_id payload w = (r, w') →
       r ≠ Raise ZeroDivisionError
       ∧ ∀ result, r = Ok result → result = mkAttemptResult 0 0 0)
  ∧ (answering w → answering (served (db w) w) →
     ∃ w', submit_attempt quiz_id payload w = (Ok (mkAttemptResult 0 0 0), w')).
Proof.
  intros Hq Hqs.
  assert (Hcc : count_correct (QuizDoc.questions quiz) (SubmitAttempt.answers payload) = 0%Z).
  { assert (H := count_correct_range (QuizDoc.questions quiz)
                   (SubmitAttempt.answers payload)).
    rewrite Hqs in H |- *. simpl length in H. lia. }
  assert (Hg : grade (QuizDoc.questions quiz) (SubmitAttempt.answers payload) = Ok 0%Z).
  { unfold grade. rewrite Hcc. apply score_percent_0. }
  split; [exact Hg|]. split.
  - intros r w' Hrun.
    apply submit_attempt_inv in Hrun
      as [(_ & [d ->] & _)|[(_ & _ & -> & _)
         |(_ & quiz' & score & Hq' & Hg' & [(_ & [d ->] & _)|(_ & -> & _)])]];
      (split; [discriminate|]); try discriminate.
    assert (quiz' = quiz) as -> by congruence.
    assert (score = 0%Z) as -> by congruence.
    intros result [= <-]. rewrite Hcc, Hqs. reflexivity.
  - intros Ha Ha1.
    destruct (submit_attempt_returns quiz_id payload w quiz Ha Ha1 Hq) as (r & w' & Hrun).
    exists w'. rewrite Hrun. do 2 f_equal.
    apply submit_attempt_inv in Hrun
      as [(_ & [d [=]] & _)|[(_ & _ & [=] & _)
         |(_ & quiz' & score & Hq' & Hg' & [(_ & [d [=]] & _)|(_ & [= ->] & _)])]].
    assert (quiz' = quiz) as -> by congruence.
    assert (score = 0%Z) as -> by congruence.
    rewrite Hcc, Hqs. reflexivity.
Qed.

Lemma submit_attempt_no_questions_witness :
  ∃ w', submit_attempt "q0" payload_29_of_50 world_0
        = (Ok (mkAttemptResult 0 0 0), w').
Proof.
  apply (submit_attempt_no_questions "q0" payload_29_of_50 world_0 quiz_0);
    reflexivity || exact I.
Defined.

(** * Properties of seeding *)

(** Two stored tracks with the slug of the first seeded track. *)
Definition track_section_i : Track.t :=
  Track.mk "SECTION I" "section-i"
    "Foundations: DB systems, relational model, and SQL fundamentals."
    "beginner" ["database"; "relational"; "sql"].

Definition world_duplicates : World :=
  mkWorld
    (mkStore [Track_model_dump track_section_i "0";
              Track_model_dump track_section_i "1"] [] [] [] 2)
    [] 0 [].

(** C4 as stated fails from a store that already holds two documents
    with the natural key: two invocations return, and the key still has two
    documents. *)
Lemma ensure_track_duplicates_counterexample :
  ((ensure_track track_section_i ≫= λ _, ensure_track track_section_i)
     world_duplicates).1 = Ok ()
  ∧ length (filter (λ d, TrackDoc.slug d = "section-i")
              (track_docs (db ((ensure_track track_section_i
                                  ≫= λ _, ensure_track track_section_i)
                                 world_duplicates).2))) = 2.
Proof. split; vm_compute; reflexivity. Qed.

(** C4, amended: starting from a store with at most one document for
    the natural key, an invocation of [ensure_track], [ensure_lesson] or
    [ensure_quiz] that returns leaves exactly one document for the key, and
    any number of later invocations leave the store as it is. *)
Theorem ensure_exactly_one :
  (∀ track w w' later,
     ensure_track track w = (Ok (), w') →
     length (filter (λ d, TrackDoc.slug d = Track.slug track) (track_docs (db w))) ≤ 1 →
     length (filter (λ d, TrackDoc.slug d = Track.slug track) (track_docs (db w'))) = 1
     ∧ db (exec_all (replicate later (ensure_track track)) w') = db w')
  ∧ (∀ lesson w w' later,
     ensure_lesson lesson w = (Ok (), w') →
     length (filter (λ d, LessonDoc.slug d = Lesson.slug lesson) (lesson_docs (db w))) ≤ 1 →
     length (filter (λ d, LessonDoc.slug d = Lesson.slug lesson) (lesson_docs (db w'))) = 1
     ∧ db (exec_all (replicate later (ensure_lesson lesson)) w') = db w')
  ∧ (∀ quiz w w' later,
     ensure_quiz quiz w = (Ok (), w') →
     length (filter (λ d, QuizDoc.lesson_slug d = Quiz.lesson_slug quiz)
               (quiz_docs (db w))) ≤ 1 →
     length (filter (λ d, QuizDoc.lesson_slug d = Quiz.lesson_slug quiz)
               (quiz_docs (db w'))) = 1
     ∧ db (exec_all (replicate later (ensure_quiz quiz)) w') = db w').
Proof.
  split; [|split].
  - intros track w w' later Hrun Hle.
    rewrite ensure_track_ensure in Hrun |- *.
    rewrite <- !(filter_bool_decide (λ d, TrackDoc.slug d = Track.slug track)) in *.
    apply (ensure_idempotent c_track _ _ w w' later); [|exact Hrun|exact Hle].
    intros id. now apply bool_decide_eq_true.
  - intros lesson w w' later Hrun Hle.
    rewrite ensure_lesson_ensure in Hrun |- *.
    rewrite <- !(filter_bool_decide (λ d, LessonDoc.slug d = Lesson.slug lesson)) in *.
    apply (ensure_idempotent c_lesson _ _ w w' later); [|exact Hrun|exact Hle].
    intros id. now apply bool_decide_eq_true.
  - intros quiz w w' later Hrun Hle.
    rewrite ensure_quiz_ensure in Hrun |- *.
    rewrite <- !(filter_bool_decide (λ d, QuizDoc.lesson_slug d = Quiz.lesson_slug quiz)) in *.
    apply (ensure_idempotent c_quiz _ _ w w' later); [|exact Hrun|exact Hle].
    intros id. now apply bool_decide_eq_true.
Qed.

(** Seeding a store that answers every call: two tracks, seven lessons
    and seven quizzes; seeding it again changes nothing. *)
Lemma seeded_counts :
  length (track_docs (db seeded)) = 2
  ∧ length (lesson_docs (db seeded)) = 7
  ∧ length (quiz_docs (db seeded)) = 7
  ∧ db (seed_data seeded).2 = db seeded.
Proof.
  split; [vm_compute; reflexivity|]. split; [vm_compute; reflexivity|].
  split; vm_compute; reflexivity.
Qed.

Lemma ensure_exactly_one_witness :
  length (filter (λ d, TrackDoc.slug d = "section-i")
            (track_docs (db (ensure_track track_section_i seeded).2))) = 1
  ∧ db (exec_all (replicate 3 (ensure_track track_section_i))
          (ensure_track track_section_i seeded).2)
    = db (ensure_track track_section_i seeded).2.
Proof.
  apply (proj1 ensure_exactly_one track_section_i seeded); vm_compute; [reflexivity|lia].
Defined.

Lemma try_except_print (body : M unit) (a : string) w :
  quiet body →
  ∃ w', try_except body (print a) w = (Ok (), w')
    ∧ (stdout w' = stdout w ∨ ∃ e, stdout w' = stdout w ++ [a +:+ " " +:+ str e]).
Proof.
  intros Hq. unfold try_except.
  destruct (body w) as [[[]|e] w1] eqn:Hbody.
  - exists w1. split; [reflexivity|]. left. eapply Hq, Hbody.
  - eexists. split; [reflexivity|]. right. exists e. simpl.
    now rewrite (Hq _ _ _ Hbody).
Qed.

(** C6: [seed_data] returns normally from every world, whatever the
    store does at each call; what the body raised, if anything, is printed
    on one line. *)
Theorem seed_data_never_raises w :
  ∃ w', seed_data w = (Ok (), w')
    ∧ (stdout w' = stdout w
       ∨ ∃ e, stdout w'
              = stdout w ++ ["[seed] Skipped seeding due to error:" +:+ " " +:+ str e]).
Proof.
  unfold seed_data. apply try_except_print.
  apply quiet_bind; [rewrite ensure_track_ensure; apply quiet_ensure|intros _].
  apply quiet_bind; [rewrite ensure_track_ensure; apply quiet_ensure|intros _].
  apply quiet_bind.
  - apply quiet_for_each. intros x. rewrite ensure_lesson_ensure. apply quiet_ensure.
  - intros _. apply quiet_for_each. intros x. rewrite ensure_quiz_ensure.
    apply quiet_ensure.
Qed.

(** The store failing at its third call: the first track is kept, the
    failure is printed, and [seed_data] returns. *)
Lemma seed_data_store_down :
  let w := (seed_data (mkWorld empty_store [None; None; Some "store down"] 0 [])) in
  w.1 = Ok ()
  ∧ TrackDoc.slug <$> track_docs (db w.2) = ["section-i"]
  ∧ stdout w.2 = ["[seed] Skipped seeding due to error: store down"].
Proof.
  split; [vm_compute; reflexivity|]. split; vm_compute; reflexivity.
Qed.

(** * Properties of [get_progress] *)

(** With a store that answers, [get_progress] returns. *)
Lemma get_progress_returns email w :
  answering w → ∃ r w', get_progress email w = (Ok r, w').
Proof.
  intros Ha. destruct (get_progress email w) as [r w'] eqn:H.
  apply get_progress_inv in H as [_ [(_ & ->)|(Hn & _)]]; [eauto|tauto].
Qed.

Definition learner : string := "learner@example.org".

(** A learner with 1001 stored attempts at one quiz: a thousand scored 0,
    then one scored 100. *)
Definition world_1001 : World :=
  mkWorld
    (mkStore [] [] []
       (replicate 1000 (AttemptDoc.mk "a" learner (Some "q") [0%Z] (Some 0%Z) (Some 0%Z))
        ++ [AttemptDoc.mk "b" learner (Some "q") [1%Z] (Some 100%Z) (Some 1%Z)])
       1001)
    [] 2 [].

(** C5 as stated fails for that learner: the best score among the
    stored attempts at the quiz is 100, and [get_progress], which reads no
    more than 1000 attempts, reports 0 and no completed quiz. *)
Lemma get_progress_cap_counterexample :
  (get_progress learner world_1001).1 = Ok (mkProgress 0 {[Some "q" := 0%Z]})
  ∧ is_max_of
      (scores_of (Some "q")
         (filter (λ a, AttemptDoc.user_email a = learner)
            (attempt_docs (db world_1001))))
      (Some 100%Z).
Proof.
  split; [vm_compute; reflexivity|].
  apply (bool_decide_unpack _). vm_compute. exact I.
Qed.

(** C5, amended: over the attempts that [get_progress] reads (the first
    1000 stored attempts of the email), [best_scores] maps each quiz
    identifier to the maximum score of the attempts at it and holds no
    other identifier; [quizzes_completed] is the number of identifiers
    whose best score is at least 70; with no attempts the mapping is empty
    and the count is 0.  The attempts read are all the attempts of a
    learner who has at most 1000. *)
Theorem get_progress_best_scores email w r w' :
  get_progress email w = (Ok r, w') →
  let atts := take 1000 (filter (λ a, AttemptDoc.user_email a = email)
                           (attempt_docs (db w))) in
  (∀ qid, is_max_of (scores_of qid atts) (best_scores r !! qid))
  ∧ quizzes_completed r = size (filter passed (best_scores r))
  ∧ (atts = [] → quizzes_completed r = 0 ∧ best_scores r = ∅)
  ∧ (length (filter (λ a, AttemptDoc.user_email a = email) (attempt_docs (db w)))
       ≤ 1000 →
     atts = filter (λ a, AttemptDoc.user_email a = email) (attempt_docs (db w))).
Proof.
  intros H atts.
  apply get_progress_inv in H as [_ [(_ & [= ->])|(_ & d & [=])]].
  cbv zeta. simpl quizzes_completed. simpl best_scores. fold atts.
  split; [intros qid; apply by_quiz_is_max|].
  split; [apply count_completed_size|].
  split; [intros ->; split; reflexivity|].
  intros Hlen. unfold atts. now rewrite take_ge.
Qed.

(** The spec's example: attempts scored 40, 90 and 70 at one quiz. *)
Definition world_40_90_70 : World :=
  mkWorld
    (mkStore [] [] []
       [AttemptDoc.mk "0" learner (Some "q") [] (Some 40%Z) (Some 0%Z);
        AttemptDoc.mk "1" learner (Some "q") [] (Some 90%Z) (Some 1%Z);
        AttemptDoc.mk "2" learner (Some "q") [] (Some 70%Z) (Some 2%Z)]
       3)
    [] 3 [].

Lemma get_progress_best_scores_witness :
  is_max_of [40; 90; 70]%Z (Some 90%Z)
  ∧ 1 = size (filter passed ({[Some "q" := 90%Z]} : gmap (option string) Z)).
Proof.
  destruct (get_progress learner world_40_90_70) as [r w'] eqn:Hrun.
  assert (Hr : r = Ok (mkProgress 1 {[Some "q" := 90%Z]})).
  { apply (f_equal fst) in Hrun. simpl fst in Hrun. rewrite <- Hrun.
    vm_compute. reflexivity. }
  rewrite Hr in Hrun.
  destruct (get_progress_best_scores _ _ _ _ Hrun) as (Hbest & Hcount & _).
  split; [exact (Hbest (Some "q"))|exact Hcount].
Defined.

(** Stored attempts at one quiz: one scored -5, then one without a
    score. *)
Definition attempt_minus_5 : AttemptDoc.t :=
  AttemptDoc.mk "0" learner (Some "q") [] (Some (-5)%Z) (Some 0%Z).

Definition attempt_without_score : AttemptDoc.t :=
  AttemptDoc.mk "1" learner (Some "q") [] None (Some 1%Z).

Definition world_minus_5 : World :=
  mkWorld (mkStore [] [] [] [attempt_minus_5; attempt_without_score] 2) [] 2 [].

(** C10 as stated fails when the existing best score is negative: the
    attempt without a score raises the best score of its quiz from -5
    to 0. *)
Lemma progress_step_without_score_counterexample :
  AttemptDoc.score attempt_without_score = None
  ∧ fold_left progress_step [attempt_minus_5] ∅ = {[Some "q" := (-5)%Z]}
  ∧ progress_step {[Some "q" := (-5)%Z]} attempt_without_score = {[Some "q" := 0%Z]}
  ∧ (get_progress learner world_minus_5).1 = Ok (mkProgress 0 {[Some "q" := 0%Z]}).
Proof.
  split; [reflexivity|]. split; [vm_compute; reflexivity|].
  split; vm_compute; reflexivity.
Qed.

(** C10, amended: in the loop of [get_progress] an attempt without a
    score is treated as one with score 0.  It gives its quiz the best score
    0 when the quiz has none yet, leaves an existing best score that is not
    negative as it is, and does not change the number of completed
    quizzes. *)
Theorem progress_step_without_score (by_quiz : gmap (option string) Z) a :
  AttemptDoc.score a = None →
  progress_step by_quiz a = progress_step by_quiz (with_score_0 a)
  ∧ (by_quiz !! AttemptDoc.quiz_id a = None →
     progress_step by_quiz a = <[AttemptDoc.quiz_id a := 0%Z]> by_quiz)
  ∧ (∀ best, by_quiz !! AttemptDoc.quiz_id a = Some best → (0 ≤ best)%Z →
     progress_step by_quiz a = by_quiz)
  ∧ count_completed (progress_step by_quiz a) = count_completed by_quiz.
Proof.
  intros Hs.
  assert (H0 : score_or_0 a = 0%Z) by (unfold score_or_0; now rewrite Hs).
  unfold progress_step. rewrite H0.
  split; [reflexivity|].
  split; [intros ->; reflexivity|]. split.
  - intros best -> Hbest. destruct (Z.gtb_spec 0 best); [lia|reflexivity].
  - rewrite !count_completed_size.
    destruct (by_quiz !! AttemptDoc.quiz_id a) as [best|] eqn:Hb.
    + destruct (Z.gtb_spec 0 best) as [Hneg|]; [|reflexivity].
      rewrite map_filter_insert_not'; [reflexivity|unfold passed; simpl; lia|].
      intros y Hy. assert (y = best) as -> by congruence. unfold passed; simpl; lia.
    + rewrite map_filter_insert_not'; [reflexivity|unfold passed; simpl; lia|].
      intros y Hy. congruence.
Qed.

Lemma progress_step_without_score_witness :
  progress_step {[Some "q" := 40%Z]} attempt_without_score = {[Some "q" := 40%Z]}.
Proof.
  apply (progress_step_without_score {[Some "q" := 40%Z]} attempt_without_score
           eq_refl) with (best := 40%Z); [reflexivity|lia].
Defined.

(** * Properties of [list_lessons] *)

Lemma list_lessons_returns slug w :
  answering w → ∃ items w', list_lessons slug w = (Ok items, w').
Proof.
  intros Ha. destruct (list_lessons slug w) as [r w'] eqn:H.
  apply list_lessons_inv in H as [_ [(_ & ->)|(Hn & _)]]; [eauto|tauto].
Qed.

(** A track with 201 stored lessons. *)
Definition world_201 : World :=
  mkWorld
    (mkStore []
       (imap (λ i _, LessonDoc.mk (pretty i) "big-track" "Lesson" (pretty i)
                       "text" "easy" (Some (Z.of_nat i)))
             (replicate 201 ()))
       [] [] 201)
    [] 0 [].

Definition ok_length {A} (r : res (list A)) : option nat :=
  match r with
  | Ok items => Some (length items)
  | Raise _ => None
  end.

(** C9 as stated fails for that track: 201 stored lessons have its slug
    and [list_lessons] returns 200 of them. *)
Lemma list_lessons_cap_counterexample :
  length (filter (λ d, LessonDoc.track_slug d = "big-track")
            (lesson_docs (db world_201))) = 201
  ∧ ok_length (list_lessons "big-track" world_201).1 = Some 200.
Proof. split; vm_compute; reflexivity. Qed.

(** C9, amended: [list_lessons] returns the stored lessons whose
    [track_slug] is the given slug, no more than the first 200 of them in
    stored order, sorted in ascending order of [order] (0 for a lesson
    without one), lessons of equal order in stored order.  When the track
    has at most 200 lessons these are all its lessons. *)
Theorem list_lessons_sorted slug w items w' :
  list_lessons slug w = (Ok items, w') →
  let stored := filter (λ d, LessonDoc.track_slug d = slug) (lesson_docs (db w)) in
  items ≡ₚ take 200 stored
  ∧ StronglySorted (key_le order_key) items
  ∧ (∀ k, filter (λ d, order_key d = k) items
          = filter (λ d, order_key d = k) (take 200 stored))
  ∧ (length stored ≤ 200 → items ≡ₚ stored).
Proof.
  intros H stored.
  apply list_lessons_inv in H as [_ [(_ & [= ->])|(_ & d & [=])]].
  fold stored.
  split; [apply sort_by_perm|]. split; [apply sort_by_sorted|].
  split; [intros k; apply sort_by_stable|].
  intros Hlen. rewrite sort_by_perm. now rewrite take_ge by lia.
Qed.

Lemma list_lessons_sorted_witness :
  StronglySorted (key_le order_key)
    (sort_by order_key
       (take 200 (filter (λ d, LessonDoc.track_slug d = "section-ii")
                    (lesson_docs (db seeded))))).
Proof.
  refine (proj1 (proj2 (list_lessons_sorted "section-ii" seeded _
                          (served (db seeded) seeded) _))).
  vm_compute. reflexivity.
Defined.

(** * The rest of [main.py] *)

(** [GET /]. *)
Definition root : M (list (string * string)) :=
  mret [("status", "ok"); ("service", "db-learning-api")].

(** Modelled from the spec: [db.command({"ping": 1})], the ping of the
    document store behind [GET /test]; [db] comes from the module
    [database], which [main.py] only imports.  The ping is a call to the
    store that reads and writes nothing. *)
Definition db_command_ping : M unit := store_call (λ s, ((), s)).

(** [GET /test]: [{"status": "ok"}], or [HTTPException(500, str(e))] for
    whatever the ping raised. *)
Definition test : M (list (string * string)) :=
  try_except
    (db_command_ping ≫= λ _, mret [("status", "ok")])
    (λ e, raise (HTTPException 500 (str e))).

(** * Facts about what handlers do to the store *)

Module Effects.

Import Run Seed.

(** Every run of [m] takes the store to one related to it by [R]. *)
Definition keeps {A} (R : relation Store) (m : M A) : Prop :=
  ∀ w r w', m w = (r, w') → R (db w) (db w').

(** The three curriculum collections only grow at the end, and the
    attempts are as they were. *)
Definition seed_step (s s' : Store) : Prop :=
  track_docs s `prefix_of` track_docs s'
  ∧ lesson_docs s `prefix_of` lesson_docs s'
  ∧ quiz_docs s `prefix_of` quiz_docs s'
  ∧ attempt_docs s' = attempt_docs s.

(** A collection of the curriculum. *)
Definition curriculum {D} (c : collection D) : Prop :=
  match c with
  | c_attempt => False
  | _ => True
  end.

(** The store answers every call from now on. *)
Definition calm (w : World) : Prop := faults w = [].

(** Some stored document of the collection has the key. *)
Definition present {D} (c : collection D) (key : D → bool) (s : Store) : Prop :=
  with_key c key s ≠ [].

(** Every document of the curriculum of [seed_data] has a stored
    document with its natural key. *)
Definition fully_seeded (s : Store) : Prop :=
  Forall (λ slug, Exists (λ d, TrackDoc.slug d = slug) (track_docs s))
    ["section-i"; "section-ii"]
  ∧ Forall (λ lesson,
              Exists (λ d, LessonDoc.slug d = Lesson.slug lesson) (lesson_docs s))
      lessons
  ∧ Forall (λ quiz,
              Exists (λ d, QuizDoc.lesson_slug d = Quiz.lesson_slug quiz)
                (quiz_docs s))
      quizzes.

#[global] Instance fully_seeded_dec s : Decision (fully_seeded s).
Proof. unfold fully_seeded. apply _. Defined.

#[global] Instance seed_step_preorder : PreOrder seed_step.
Proof.
  split.
  - intros s. repeat split; reflexivity.
  - intros s1 s2 s3 (?&?&?&?) (?&?&?&?). repeat split; first [etrans; eassumption|congruence].
Qed.

Section Keeps.
Context (R : relation Store) `{!PreOrder R}.

Lemma keeps_ret {A} (a : A) : keeps R (mret a).
Proof. intros w r w' [= _ <-]. reflexivity. Qed.

Lemma keeps_raise {A} e : keeps R (@raise A e).
Proof. intros w r w' [= _ <-]. reflexivity. Qed.

Lemma keeps_lift {A} (x : res A) : keeps R (lift x).
Proof. intros w r w' [= _ <-]. reflexivity. Qed.

Lemma keeps_utcnow : keeps R utcnow.
Proof. intros w r w' [= _ <-]. reflexivity. Qed.

Lemma keeps_print a e : keeps R (print a e).
Proof. intros w r w' [= _ <-]. reflexivity. Qed.

Lemma keeps_bind {A B} (m : M A) (k : A → M B) :
  keeps R m → (∀ a, keeps R (k a)) → keeps R (m ≫= k).
Proof.
  intros Hm Hk w r w' H.
  apply bind_inv in H as [(a & w1 & H1 & H2)|(e & H1 & _)].
  - etrans; [eapply Hm, H1|eapply Hk, H2].
  - eapply Hm, H1.
Qed.

Lemma keeps_for_each {A} (xs : list A) (f : A → M unit) :
  (∀ x, x ∈ xs → keeps R (f x)) → keeps R (for_each xs f).
Proof.
  intros Hf. induction xs as [|x xs IH]; [apply keeps_ret|].
  simpl. apply keeps_bind; [apply Hf; left|]. intros _.
  apply IH. intros y Hy. apply Hf. now right.
Qed.

Lemma keeps_try_except {A} (body : M A) handler :
  keeps R body → (∀ e, keeps R (handler e)) → keeps R (try_except body handler).
Proof.
  intros Hb Hh w r w' H. unfold try_except in H.
  destruct (body w) as [[a|e] w1] eqn:Hbody.
  - injection H as <- <-. eapply Hb, Hbody.
  - etrans; [eapply Hb, Hbody|eapply Hh, H].
Qed.

Lemma keeps_get_documents {D} (c : collection D) f limit :
  keeps R (get_documents c f limit).
Proof.
  intros w r w' H. apply get_documents_inv in H as [-> _]. reflexivity.
Qed.

Lemma keeps_ping : keeps R db_command_ping.
Proof.
  intros w r w' H. unfold db_command_ping in H.
  apply store_call_inv in H as [(_ & _ & ->)|(d & _ & _ & ->)]; reflexivity.
Qed.
End Keeps.

Lemma seed_step_insert_doc {D} (c : collection D) d s :
  curriculum c → seed_step s (insert_doc c d s).
Proof.
  destruct c; simpl; [| | |contradiction]; intros _;
    repeat split; simpl; try reflexivity; now apply prefix_app_r.
Qed.

Lemma keeps_ensure {D} (c : collection D) key data :
  curriculum c → keeps seed_step (ensure c key data).
Proof.
  intros Hc w r w' H.
  apply ensure_inv in H as [(_ & ->)|[(_ & _ & ->)|(_ & _ & ->)]];
    [reflexivity|reflexivity|now apply seed_step_insert_doc].
Qed.

(** ** A store that answers every call *)

Lemma calm_answering w : calm w → answering w.
Proof. unfold calm, answering. now intros ->. Qed.

Lemma calm_served s w : calm w → calm (served s w).
Proof. unfold calm, served. simpl. now intros ->. Qed.

Lemma get_documents_answering {D} (c : collection D) f limit w :
  answering w →
  get_documents c f limit w
  = (Ok (take limit (filter (λ d, f d = true) (docs c (db w)))), served (db w) w).
Proof. intros Ha. unfold get_documents. now rewrite store_call_answering. Qed.

Lemma create_document_answering {D} (c : collection D) data w :
  answering w →
  create_document c data w
  = (Ok (data (fresh_id (db w))),
     served (insert_doc c (data (fresh_id (db w))) (db w)) w).
Proof. intros Ha. unfold create_document. now rewrite store_call_answering. Qed.

Lemma present_elem {D} (c : collection D) key s :
  present c key s ↔ ∃ d, d ∈ docs c s ∧ key d = true.
Proof.
  unfold present, with_key. split.
  - destruct (filter _ (docs c s)) as [|d l] eqn:Hf; [easy|]. intros _.
    exists d. apply and_comm, (list_elem_of_filter (λ d, key d = true)).
    rewrite Hf. left.
  - intros (d & Hin & Hk) Hnil.
    assert (H : d ∈ filter (λ d, key d = true) (docs c s))
      by (apply list_elem_of_filter; auto).
    rewrite Hnil in H. inversion H.
Qed.

Lemma present_seed_step {D} (c : collection D) key s s' :
  seed_step s s' → present c key s → present c key s'.
Proof.
  intros (Ht & Hl & Hq & Ha). rewrite !present_elem. intros (d & Hin & Hk).
  exists d. split; [|exact Hk].
  destruct c; simpl in *; try (eapply elem_of_prefix; eassumption).
  now rewrite Ha.
Qed.

(** On a calm world [m] returns, stays calm and silent, and leaves a
    store with [Q]. *)
Definition seeds (m : M unit) (Q : Store → Prop) : Prop :=
  ∀ w, calm w →
    ∃ w', m w = (Ok (), w') ∧ calm w' ∧ stdout w' = stdout w ∧ Q (db w').

Lemma seeds_ensure {D} (c : collection D) key data :
  (∀ id, key (data id) = true) → seeds (ensure c key data) (present c key).
Proof.
  intros Hkey w Hw. unfold ensure, mbind, M_bind.
  rewrite get_documents_answering by now apply calm_answering.
  fold (with_key c key (db w)).
  destruct (with_key c key (db w)) as [|d l] eqn:Hk.
  - change (take 1 (@nil D)) with (@nil D). cbv beta iota.
    rewrite create_document_answering
      by now apply calm_answering, calm_served.
    eexists. split; [reflexivity|]. split; [now apply calm_served, calm_served|].
    split; [reflexivity|]. unfold present. simpl db.
    rewrite with_key_insert_doc, Hk by apply Hkey. discriminate.
  - change (take 1 (d :: l)) with [d]. cbv beta iota.
    eexists. split; [reflexivity|]. split; [now apply calm_served|].
    split; [reflexivity|]. unfold present. simpl db. now rewrite Hk.
Qed.

Lemma seeds_bind m1 m2 (Q1 Q2 : Store → Prop) :
  seeds m1 Q1 → seeds m2 Q2 →
  (∀ s s', seed_step s s' → Q1 s → Q1 s') → keeps seed_step m2 →
  seeds (m1 ≫= λ _, m2) (λ s, Q1 s ∧ Q2 s).
Proof.
  intros H1 H2 Hst Hk w Hw.
  destruct (H1 w Hw) as (w1 & E1 & Hc1 & Ho1 & HQ1).
  destruct (H2 w1 Hc1) as (w2 & E2 & Hc2 & Ho2 & HQ2).
  exists w2. unfold mbind, M_bind. rewrite E1, E2.
  repeat split; [exact Hc2|congruence| |exact HQ2].
  eapply Hst; [eapply Hk, E2|exact HQ1].
Qed.

Lemma seeds_for_each {A} (xs : list A) (f : A → M unit) (Q : A → Store → Prop) :
  (∀ x, seeds (f x) (Q x)) →
  (∀ x s s', seed_step s s' → Q x s → Q x s') →
  (∀ x, keeps seed_step (f x)) →
  seeds (for_each xs f) (λ s, ∀ x, x ∈ xs → Q x s).
Proof.
  intros Hf Hst Hk. induction xs as [|x xs IH].
  - intros w Hw. exists w. repeat split; [exact Hw|]. intros y Hy. inversion Hy.
  - intros w Hw. simpl for_each.
    destruct (seeds_bind (f x) (for_each xs f) (Q x) _ (Hf x) IH (Hst x)) with w
      as (w' & E & Hc & Ho & HQ1 & HQ2); [|exact Hw|].
    { apply keeps_for_each; [apply _|]. intros y _. apply Hk. }
    exists w'. repeat split; [exact E|exact Hc|exact Ho|].
    intros y Hy. apply elem_of_cons in Hy as [->|Hy]; [exact HQ1|now apply HQ2].
Qed.

(** ** A store that has every key already *)

(** The store stays [s0] if it was [s0]. *)
Definition stays (s0 : Store) : relation Store := λ s s', s = s0 → s' = s0.

#[global] Instance stays_preorder s0 : PreOrder (stays s0).
Proof. split; unfold stays; [now intros s|intros s1 s2 s3; auto]. Qed.

Lemma keeps_ensure_present {D} (c : collection D) key data s0 :
  present c key s0 → keeps (stays s0) (ensure c key data).
Proof.
  intros Hp w r w' H Hs. subst s0.
  assert (E := ensure_present c key data w Hp). now rewrite H in E.
Qed.

Lemma seeds_weaken m (Q Q' : Store → Prop) :
  seeds m Q → (∀ s, Q s → Q' s) → seeds m Q'.
Proof.
  intros H HQ w Hw. destruct (H w Hw) as (w' & E & Hc & Ho & Hq).
  exists w'. auto.
Qed.

Lemma seeds_try_except body handler Q :
  seeds body Q → seeds (try_except body handler) Q.
Proof.
  intros H w Hw. destruct (H w Hw) as (w' & E & Hc & Ho & Hq).
  exists w'. unfold try_except. rewrite E. auto.
Qed.

Lemma present_bool_decide {D} (c : collection D) (P : D → Prop)
    `{!∀ d, Decision (P d)} s :
  present c (λ d, bool_decide (P d)) s ↔ Exists P (docs c s).
Proof.
  rewrite present_elem, Exists_exists. split; intros (d & Hin & Hd); exists d;
    (split; [exact Hin|]); [now apply bool_decide_eq_true in Hd
                           |now apply bool_decide_eq_true].
Qed.

Lemma seeds_ensure_track track :
  seeds (ensure_track track)
    (present c_track (λ d, bool_decide (TrackDoc.slug d = Track.slug track))).
Proof.
  rewrite ensure_track_ensure. apply seeds_ensure.
  intros id. now apply bool_decide_eq_true.
Qed.

Lemma seeds_ensure_lesson lesson :
  seeds (ensure_lesson lesson)
    (present c_lesson (λ d, bool_decide (LessonDoc.slug d = Lesson.slug lesson))).
Proof.
  rewrite ensure_lesson_ensure. apply seeds_ensure.
  intros id. now apply bool_decide_eq_true.
Qed.

Lemma seeds_ensure_quiz quiz :
  seeds (ensure_quiz quiz)
    (present c_quiz (λ d, bool_decide (QuizDoc.lesson_slug d = Quiz.lesson_slug quiz))).
Proof.
  rewrite ensure_quiz_ensure. apply seeds_ensure.
  intros id. now apply bool_decide_eq_true.
Qed.

Lemma keeps_ensure_track track : keeps seed_step (ensure_track track).
Proof. rewrite ensure_track_ensure. now apply keeps_ensure. Qed.

Lemma keeps_ensure_lesson lesson : keeps seed_step (ensure_lesson lesson).
Proof. rewrite ensure_lesson_ensure. now apply keeps_ensure. Qed.

Lemma keeps_ensure_quiz quiz : keeps seed_step (ensure_quiz quiz).
Proof. rewrite ensure_quiz_ensure. now apply keeps_ensure. Qed.

Lemma keeps_seed_data : keeps seed_step seed_data.
Proof.
  unfold seed_data.
  apply keeps_try_except; [apply _| |intros e; apply keeps_print, _].
  apply keeps_bind; [apply _|apply keeps_ensure_track|intros _].
  apply keeps_bind; [apply _|apply keeps_ensure_track|intros _].
  apply keeps_bind; [apply _| |intros _];
    (apply keeps_for_each; [apply _|intros x _]);
    [apply keeps_ensure_lesson|apply keeps_ensure_quiz].
Qed.

Lemma seeds_seed_data : seeds seed_data fully_seeded.
Proof.
  unfold seed_data. apply seeds_try_except.
  eapply seeds_weaken.
  - apply seeds_bind; [apply seeds_ensure_track| |intros s s'; apply present_seed_step|].
    + apply seeds_bind;
        [apply seeds_ensure_track| |intros s s'; apply present_seed_step|].
      * apply seeds_bind.
        -- apply (seeds_for_each lessons ensure_lesson
                    (λ lesson, present c_lesson
                       (λ d, bool_decide (LessonDoc.slug d = Lesson.slug lesson)))).
           ++ apply seeds_ensure_lesson.
           ++ intros x s s'. apply present_seed_step.
           ++ apply keeps_ensure_lesson.
        -- apply (seeds_for_each quizzes ensure_quiz
                    (λ quiz, present c_quiz
                       (λ d, bool_decide (QuizDoc.lesson_slug d = Quiz.lesson_slug quiz)))).
           ++ apply seeds_ensure_quiz.
           ++ intros x s s'. apply present_seed_step.
           ++ apply keeps_ensure_quiz.
        -- intros s s' Hstep H x Hx. eapply present_seed_step; eauto.
        -- apply keeps_for_each; [apply _|]. intros x _. apply keeps_ensure_quiz.
      * apply keeps_bind; [apply _| |intros _];
          (apply keeps_for_each; [apply _|intros x _]);
          [apply keeps_ensure_lesson|apply keeps_ensure_quiz].
    + apply keeps_bind; [apply _|apply keeps_ensure_track|intros _].
      apply keeps_bind; [apply _| |intros _];
        (apply keeps_for_each; [apply _|intros x _]);
        [apply keeps_ensure_lesson|apply keeps_ensure_quiz].
  - intros s (H1 & H2 & HL & HQ). unfold fully_seeded. split; [|split].
    + repeat constructor.
      * exact (proj1 (present_bool_decide c_track _ s) H1).
      * exact (proj1 (present_bool_decide c_track _ s) H2).
    + apply Forall_forall. intros x Hx.
      exact (proj1 (present_bool_decide c_lesson _ s) (HL x Hx)).
    + apply Forall_forall. intros x Hx.
      exact (proj1 (present_bool_decide c_quiz _ s) (HQ x Hx)).
Qed.

Lemma keeps_seed_data_seeded s0 :
  fully_seeded s0 → keeps (stays s0) seed_data.
Proof.
  intros (HT & HL & HQ). unfold seed_data.
  apply keeps_try_except; [apply _| |intros e; apply keeps_print, _].
  apply keeps_bind; [apply _| |intros _].
  { rewrite ensure_track_ensure. apply keeps_ensure_present.
    apply (proj2 (present_bool_decide c_track _ s0)). now inversion HT. }
  apply keeps_bind; [apply _| |intros _].
  { rewrite ensure_track_ensure. apply keeps_ensure_present.
    apply (proj2 (present_bool_decide c_track _ s0)).
    inversion HT as [|? ? _ HT']. now inversion HT'. }
  apply keeps_bind; [apply _| |intros _].
  - apply keeps_for_each; [apply _|]. intros x Hx.
    rewrite ensure_lesson_ensure. apply keeps_ensure_present.
    apply (proj2 (present_bool_decide c_lesson _ s0)).
    now apply (proj1 (Forall_forall _ _) HL).
  - apply keeps_for_each; [apply _|]. intros x Hx.
    rewrite ensure_quiz_ensure. apply keeps_ensure_present.
    apply (proj2 (present_bool_decide c_quiz _ s0)).
    now apply (proj1 (Forall_forall _ _) HQ).
Qed.

End Effects.

(** * Further properties of seeding *)

Import Effects.

(** X1: [seed_data] only appends documents: in every world, whatever
    the store does, each stored track, lesson and quiz is kept as it was
    and in its place, and the attempts are not touched. *)
Theorem seed_data_only_appends w :
  track_docs (db w) `prefix_of` track_docs (db (seed_data w).2)
  ∧ lesson_docs (db w) `prefix_of` lesson_docs (db (seed_data w).2)
  ∧ quiz_docs (db w) `prefix_of` quiz_docs (db (seed_data w).2)
  ∧ attempt_docs (db (seed_data w).2) = attempt_docs (db w).
Proof.
  apply (keeps_seed_data w (seed_data w).1 (seed_data w).2).
  now destruct (seed_data w).
Qed.

(** X2: when the store answers every call, [seed_data] returns without
    printing and leaves a store in which every track, lesson and quiz of
    the curriculum has a document with its natural key, whatever the store
    held before. *)
Theorem seed_data_completes w :
  faults w = [] →
  ∃ w', seed_data w = (Ok (), w')
    ∧ fully_seeded (db w')
    ∧ stdout w' = stdout w.
Proof.
  intros Hw. destruct (seeds_seed_data w Hw) as (w' & E & _ & Ho & Hq). eauto.
Qed.

Lemma seed_data_completes_witness :
  ∃ w', seed_data world_duplicates = (Ok (), w')
    ∧ fully_seeded (db w')
    ∧ stdout w' = stdout world_duplicates.
Proof. apply (seed_data_completes world_duplicates). reflexivity. Defined.

(** X3: on a store in which every document of the curriculum already
    has one with its natural key, [seed_data] changes nothing, whether the
    store answers its calls or fails them. *)
Theorem seed_data_fixed_point w :
  fully_seeded (db w) → db (seed_data w).2 = db w.
Proof.
  intros Hs.
  apply (keeps_seed_data_seeded (db w) Hs w (seed_data w).1 (seed_data w).2);
    [now destruct (seed_data w)|reflexivity].
Qed.

(** The seeded store behind a store that fails its second call. *)
Definition seeded_failing : World :=
  mkWorld (db seeded) [None; Some "store down"] 5 [].

Lemma seed_data_fixed_point_witness :
  db (seed_data seeded_failing).2 = db seeded_failing.
Proof.
  apply (seed_data_fixed_point seeded_failing).
  apply (bool_decide_unpack (fully_seeded (db seeded_failing))).
  vm_compute. exact I.
Defined.

(** * Facts about the reading handlers *)

Module Reads.

Import Run Seed Effects Progress Lessons.

Lemma head_filter_None {A} (P : A → Prop) `{!∀ x, Decision (P x)} (l : list A) :
  head (filter P l) = None ↔ ∀ x, x ∈ l → ¬ P x.
Proof.
  split.
  - intros Hn x Hin HP.
    assert (Hx : x ∈ filter P l) by (apply list_elem_of_filter; auto).
    destruct (filter P l); [inversion Hx|discriminate Hn].
  - intros Hn. destruct (filter P l) as [|x k] eqn:Hf; [reflexivity|].
    assert (Hx : x ∈ filter P l) by (rewrite Hf; left).
    apply list_elem_of_filter in Hx as [HP Hin]. now apply Hn in Hin.
Qed.

Lemma head_filter_Some {A} (P : A → Prop) `{!∀ x, Decision (P x)} (l : list A) x :
  head (filter P l) = Some x → P x ∧ x ∈ l.
Proof.
  intros Hs. apply (list_elem_of_filter P).
  destruct (filter P l) as [|y k]; [discriminate Hs|].
  injection Hs as ->. left.
Qed.

(** What the first call to the store returns when it fails. *)
Definition store_failure (w : World) : option exn :=
  match faults w with
  | Some detail :: _ => Some (StoreFailure detail)
  | _ => None
  end.

Lemma store_failure_None w : store_failure w = None ↔ answering w.
Proof. unfold store_failure, answering. destruct (faults w) as [|[d|] fs]; easy. Qed.

Lemma get_documents_failing {D} (c : collection D) f limit w e :
  store_failure w = Some e →
  get_documents c f limit w = (Raise e, served (db w) w).
Proof.
  unfold store_failure, get_documents, store_call, served.
  destruct (faults w) as [|[d|] fs]; try discriminate. now intros [= <-].
Qed.

Lemma bind_failing {A B} (m : M A) (k : A → M B) w e w' :
  m w = (Raise e, w') → (m ≫= k) w = (Raise e, w').
Proof. intros H. unfold mbind, M_bind. now rewrite H. Qed.

Lemma bind_ok {A B} (m : M A) (k : A → M B) w a w' :
  m w = (Ok a, w') → (m ≫= k) w = k a w'.
Proof. intros H. unfold mbind, M_bind. now rewrite H. Qed.

(** The outcome of "the first document found, or 404". *)
Definition first_or_404 {A} (found : option A) (detail : string) : res A :=
  match found with
  | Some d => Ok d
  | None => Raise (HTTPException 404 detail)
  end.

Lemma first_or_404_iff {A} (found : option A) detail :
  (first_or_404 found detail = Raise (HTTPException 404 detail) ↔ found = None)
  ∧ (∀ d, first_or_404 found detail = Ok d ↔ found = Some d).
Proof.
  destruct found as [d0|]; simpl; split; try intros d; split;
    intros E; try discriminate E; try reflexivity; congruence.
Qed.

Lemma take_1_head {A} (l : list A) :
  match take 1 l with [] => None | x :: _ => Some x end = head l.
Proof. now destruct l. Qed.

Lemma get_lesson_answering slug w :
  answering w →
  get_lesson slug w
  = (first_or_404
       (head (filter (λ d, LessonDoc.slug d = slug) (lesson_docs (db w))))
       "Lesson not found",
     served (db w) w).
Proof.
  intros Ha. unfold get_lesson.
  rewrite (bind_ok _ _ _ _ _ (get_documents_answering c_lesson _ 1 w Ha)).
  change (docs c_lesson (db w)) with (lesson_docs (db w)).
  rewrite filter_bool_decide.
  destruct (filter _ (lesson_docs (db w))); reflexivity.
Qed.

Lemma get_quiz_answering slug w :
  answering w →
  get_quiz slug w
  = (first_or_404
       (head (filter (λ d, QuizDoc.lesson_slug d = slug) (quiz_docs (db w))))
       "Quiz not found",
     served (db w) w).
Proof.
  intros Ha. unfold get_quiz.
  rewrite (bind_ok _ _ _ _ _ (get_documents_answering c_quiz _ 1 w Ha)).
  change (docs c_quiz (db w)) with (quiz_docs (db w)).
  rewrite filter_bool_decide.
  destruct (filter _ (quiz_docs (db w))); reflexivity.
Qed.

Lemma list_tracks_answering w :
  answering w →
  list_tracks w = (Ok (take 100 (track_docs (db w))), served (db w) w).
Proof.
  intros Ha. unfold list_tracks. rewrite get_documents_answering by exact Ha.
  simpl docs. do 3 f_equal.
  induction (track_docs (db w)) as [|d l IH]; [reflexivity|].
  now rewrite filter_cons_True, IH.
Qed.

Lemma list_lessons_answering slug w :
  answering w →
  list_lessons slug w
  = (Ok (sort_by order_key
           (take 200 (filter (λ d, LessonDoc.track_slug d = slug)
                        (lesson_docs (db w))))),
     served (db w) w).
Proof.
  intros Ha. unfold list_lessons.
  rewrite (bind_ok _ _ _ _ _ (get_documents_answering c_lesson _ 200 w Ha)).
  simpl docs. now rewrite filter_bool_decide.
Qed.

(** The dictionary [by_quiz] and the count that [get_progress] returns
    for the attempts it has read. *)
Definition progress_of (atts : list AttemptDoc.t) : Progress :=
  mkProgress (count_completed (fold_left progress_step atts ∅))
    (fold_left progress_step atts ∅).

Lemma get_progress_answering email w :
  answering w →
  get_progress email w
  = (Ok (progress_of
           (take 1000 (filter (λ a, AttemptDoc.user_email a = email)
                         (attempt_docs (db w))))),
     served (db w) w).
Proof.
  intros Ha. unfold get_progress.
  rewrite (bind_ok _ _ _ _ _ (get_documents_answering c_attempt _ 1000 w Ha)).
  simpl docs. now rewrite filter_bool_decide.
Qed.

Lemma test_outcome w :
  test w
  = (match store_failure w with
     | Some e => Raise (HTTPException 500 (str e))
     | None => Ok [("status", "ok")]
     end, served (db w) w).
Proof.
  unfold test, try_except, db_command_ping, mbind, M_bind, store_call,
    store_failure, served, raise.
  destruct w as [s fs t out]; simpl. now destruct fs as [|[d|] fs].
Qed.

End Reads.

(** * Properties of the reading handlers *)

Import Reads.

(** X4: [get_lesson] returns the first stored lesson with the slug; it
    raises [HTTPException(404, "Lesson not found")] exactly when the store
    answers and no stored lesson has the slug. *)
Theorem get_lesson_outcome slug w :
  ((get_lesson slug w).1 = Raise (HTTPException 404 "Lesson not found")
   ↔ answering w ∧ ∀ d, d ∈ lesson_docs (db w) → LessonDoc.slug d ≠ slug)
  ∧ (∀ d, (get_lesson slug w).1 = Ok d
          ↔ answering w
            ∧ head (filter (λ d, LessonDoc.slug d = slug) (lesson_docs (db w)))
              = Some d).
Proof.
  destruct (store_failure w) as [e|] eqn:Hf.
  - assert (Hn : ¬ answering w).
    { intros Ha. apply store_failure_None in Ha. congruence. }
    unfold get_lesson.
    rewrite (bind_failing _ _ _ _ _ (get_documents_failing c_lesson _ 1 w e Hf)).
    simpl fst. unfold store_failure in Hf.
    destruct (faults w) as [|[detail|] fs]; try discriminate Hf.
    injection Hf as <-. split; [|intros d]; split; (discriminate || tauto).
  - apply store_failure_None in Hf. rewrite get_lesson_answering by exact Hf.
    simpl fst. rewrite <- (head_filter_None (λ d, LessonDoc.slug d = slug)).
    destruct (first_or_404_iff
                (head (filter (λ d, LessonDoc.slug d = slug) (lesson_docs (db w))))
                "Lesson not found") as [H404 Hok].
    split; [rewrite H404; tauto|]. intros d. rewrite Hok. tauto.
Qed.

(** X5: [get_quiz] returns the first stored quiz of the lesson; it raises
    [HTTPException(404, "Quiz not found")] exactly when the store answers
    and no stored quiz has the lesson's slug. *)
Theorem get_quiz_outcome slug w :
  ((get_quiz slug w).1 = Raise (HTTPException 404 "Quiz not found")
   ↔ answering w ∧ ∀ d, d ∈ quiz_docs (db w) → QuizDoc.lesson_slug d ≠ slug)
  ∧ (∀ d, (get_quiz slug w).1 = Ok d
          ↔ answering w
            ∧ head (filter (λ d, QuizDoc.lesson_slug d = slug) (quiz_docs (db w)))
              = Some d).
Proof.
  destruct (store_failure w) as [e|] eqn:Hf.
  - assert (Hn : ¬ answering w).
    { intros Ha. apply store_failure_None in Ha. congruence. }
    unfold get_quiz.
    rewrite (bind_failing _ _ _ _ _ (get_documents_failing c_quiz _ 1 w e Hf)).
    simpl fst. unfold store_failure in Hf.
    destruct (faults w) as [|[detail|] fs]; try discriminate Hf.
    injection Hf as <-. split; [|intros d]; split; (discriminate || tauto).
  - apply store_failure_None in Hf. rewrite get_quiz_answering by exact Hf.
    simpl fst. rewrite <- (head_filter_None (λ d, QuizDoc.lesson_slug d = slug)).
    destruct (first_or_404_iff
                (head (filter (λ d, QuizDoc.lesson_slug d = slug) (quiz_docs (db w))))
                "Quiz not found") as [H404 Hok].
    split; [rewrite H404; tauto|]. intros d. rewrite Hok. tauto.
Qed.

(** X6: [test] answers [{"status": "ok"}] when the ping is answered and
    otherwise raises [HTTPException(500, ...)] with the text of the store's
    failure; no failure of the store gets through it as it is. *)
Theorem test_outcome_500 w :
  (test w).1
  = match faults w with
    | Some detail :: _ => Raise (HTTPException 500 detail)
    | _ => Ok [("status", "ok")]
    end.
Proof.
  rewrite test_outcome. simpl fst. unfold store_failure.
  now destruct (faults w) as [|[detail|] fs].
Qed.

Lemma keeps_first_or_404 {D} (c : collection D) f (detail : string) :
  keeps eq (get_documents c f 1 ≫= λ items,
              match items with
              | [] => raise (HTTPException 404 detail)
              | item :: _ => mret item
              end).
Proof.
  apply keeps_bind; [apply _|apply keeps_get_documents, _|].
  intros [|d l]; [apply keeps_raise, _|apply keeps_ret, _].
Qed.

(** X7: the handlers that read ([root], [test], [list_tracks],
    [list_lessons], [get_lesson], [get_quiz], [get_progress]) leave the
    store as it is, whatever they return or raise. *)
Theorem reading_handlers_keep_store w :
  db (root w).2 = db w
  ∧ db (test w).2 = db w
  ∧ db (list_tracks w).2 = db w
  ∧ (∀ slug, db (list_lessons slug w).2 = db w)
  ∧ (∀ slug, db (get_lesson slug w).2 = db w)
  ∧ (∀ slug, db (get_quiz slug w).2 = db w)
  ∧ (∀ email, db (get_progress email w).2 = db w).
Proof.
  assert (Hrun : ∀ A (m : M A), keeps eq m → db (m w).2 = db w).
  { intros A m Hm. symmetry. apply (Hm w (m w).1 (m w).2). now destruct (m w). }
  split; [reflexivity|]. split; [now rewrite test_outcome|].
  split; [apply Hrun, keeps_get_documents, _|].
  split; [|split; [|split]]; intros x; apply Hrun.
  - apply keeps_bind; [apply _|apply keeps_get_documents, _|].
    intros items. apply keeps_ret, _.
  - apply keeps_first_or_404.
  - apply keeps_first_or_404.
  - apply keeps_bind; [apply _|apply keeps_get_documents, _|].
    intros items. apply keeps_ret, _.
Qed.

(** The outcome of a handler that raises the failure of the store at its
    first call. *)
Definition store_failed {A} (detail : string) (rest : list (option string))
    (w : World) : res A * World :=
  (Raise (StoreFailure detail), mkWorld (db w) rest (now w) (stdout w)).

(** X8: a failure of the store at the first call of a request handler
    other than [test], or of one of the [ensure] helpers, is raised by the
    handler as it is, and the store is left as it was. *)
Theorem store_failure_propagates w detail rest :
  faults w = Some detail :: rest →
  list_tracks w = store_failed detail rest w
  ∧ (∀ slug, list_lessons slug w = store_failed detail rest w)
  ∧ (∀ slug, get_lesson slug w = store_failed detail rest w)
  ∧ (∀ slug, get_quiz slug w = store_failed detail rest w)
  ∧ (∀ quiz_id payload, submit_attempt quiz_id payload w = store_failed detail rest w)
  ∧ (∀ email, get_progress email w = store_failed detail rest w)
  ∧ (∀ track, ensure_track track w = store_failed detail rest w)
  ∧ (∀ lesson, ensure_lesson lesson w = store_failed detail rest w)
  ∧ (∀ quiz, ensure_quiz quiz w = store_failed detail rest w).
Proof.
  intros Hf.
  assert (Hs : store_failure w = Some (StoreFailure detail))
    by (unfold store_failure; now rewrite Hf).
  assert (Hw : served (db w) w = mkWorld (db w) rest (now w) (stdout w))
    by (unfold served; now rewrite Hf).
  assert (Hget : ∀ D (c : collection D) f limit,
            get_documents c f limit w = store_failed detail rest w).
  { intros D c f limit. rewrite (get_documents_failing c f limit w _ Hs).
    unfold store_failed. now rewrite Hw. }
  split; [apply Hget|].
  repeat split; intros; apply bind_failing, Hget.
Qed.

Definition world_down : World :=
  mkWorld (db seeded) [Some "connection refused"] 7 [].

Lemma store_failure_propagates_witness :
  get_lesson "unit-3-sql" world_down = store_failed "connection refused" [] world_down.
Proof.
  apply (store_failure_propagates world_down "connection refused" []).
  reflexivity.
Defined.

(** X9: the two listings never raise a 404.  [list_tracks] returns the
    stored tracks in stored order, the first 100 of them; every item of
    [list_lessons] is a stored lesson of the track, there are at most 200,
    and a track without stored lessons gets the empty list. *)
Theorem listings_outcome w :
  (∀ items, (list_tracks w).1 = Ok items → items = take 100 (track_docs (db w)))
  ∧ (∀ slug items, (list_lessons slug w).1 = Ok items →
       Forall (λ d, LessonDoc.track_slug d = slug ∧ d ∈ lesson_docs (db w)) items
       ∧ length items ≤ 200
       ∧ ((∀ d, d ∈ lesson_docs (db w) → LessonDoc.track_slug d ≠ slug) →
          items = []))
  ∧ (∀ status detail, (list_tracks w).1 ≠ Raise (HTTPException status detail))
  ∧ (∀ slug status detail,
       (list_lessons slug w).1 ≠ Raise (HTTPException status detail)).
Proof.
  destruct (store_failure w) as [e|] eqn:Hf.
  - assert (He : ∃ detail, e = StoreFailure detail).
    { unfold store_failure in Hf. destruct (faults w) as [|[d|] fs];
        try discriminate Hf. injection Hf as <-. eauto. }
    destruct He as [detail ->].
    assert (Ht : (list_tracks w).1 = Raise (StoreFailure detail))
      by (unfold list_tracks; now rewrite (get_documents_failing _ _ _ w _ Hf)).
    assert (Hl : ∀ slug, (list_lessons slug w).1 = Raise (StoreFailure detail)).
    { intros slug. unfold list_lessons.
      now rewrite (bind_failing _ _ _ _ _ (get_documents_failing c_lesson _ 200 w _ Hf)). }
    repeat split; intros; rewrite ?Ht, ?Hl in *; discriminate.
  - apply store_failure_None in Hf.
    rewrite list_tracks_answering by exact Hf.
    split; [intros items [= <-]; reflexivity|].
    split; [|split; [discriminate|intros slug; rewrite list_lessons_answering by exact Hf;
                                  discriminate]].
    intros slug items. rewrite list_lessons_answering by exact Hf. intros [= <-].
    set (stored := filter (λ d, LessonDoc.track_slug d = slug) (lesson_docs (db w))).
    split; [|split].
    + apply Forall_forall. intros d Hd. rewrite sort_by_perm in Hd.
      apply elem_of_take in Hd as (i & Hd & _).
      apply list_elem_of_lookup_2 in Hd.
      now apply (list_elem_of_filter (λ d, LessonDoc.track_slug d = slug)) in Hd.
    + rewrite sort_by_perm, length_take. lia.
    + intros Hno. replace stored with (@nil LessonDoc.t); [reflexivity|].
      symmetry. unfold stored.
      destruct (filter _ (lesson_docs (db w))) as [|d l] eqn:E; [reflexivity|].
      assert (Hd : d ∈ filter (λ d, LessonDoc.track_slug d = slug) (lesson_docs (db w)))
        by (rewrite E; left).
      apply list_elem_of_filter in Hd as [Hs Hin]. now apply Hno in Hin.
Qed.

(** * Facts about handlers run one after the other *)

Module Flow.

Import Grading Run Seed Effects Progress Reads.

Lemma is_max_of_elem scores best s :
  is_max_of scores best → s ∈ scores → ∃ b, best = Some b ∧ (s ≤ b)%Z.
Proof.
  destruct best as [b|]; simpl.
  - intros [_ Hall] Hs. exists b. split; [reflexivity|].
    now apply (proj1 (Forall_forall _ _) Hall).
  - intros -> Hs. inversion Hs.
Qed.

(** The maximum does not depend on the order of the scores. *)
Lemma is_max_of_perm scores1 scores2 best1 best2 :
  scores1 ≡ₚ scores2 → is_max_of scores1 best1 → is_max_of scores2 best2 →
  best1 = best2.
Proof.
  intros Hp H1 H2. destruct best1 as [b1|], best2 as [b2|]; simpl in *.
  - destruct H1 as [Hin1 Hall1], H2 as [Hin2 Hall2].
    rewrite Hp in Hin1. rewrite <- Hp in Hin2.
    apply (proj1 (Forall_forall _ _) Hall2) in Hin1.
    apply (proj1 (Forall_forall _ _) Hall1) in Hin2. f_equal. lia.
  - subst scores2. apply Permutation_nil_r in Hp. subst scores1.
    destruct H1 as [Hin _]. inversion Hin.
  - subst scores1. apply Permutation_nil_l in Hp. subst scores2.
    destruct H2 as [Hin _]. inversion Hin.
  - reflexivity.
Qed.

Lemma scores_of_perm qid atts1 atts2 :
  atts1 ≡ₚ atts2 → scores_of qid atts1 ≡ₚ scores_of qid atts2.
Proof. intros Hp. unfold scores_of. now rewrite Hp. Qed.

Lemma fold_progress_perm atts1 atts2 :
  atts1 ≡ₚ atts2 →
  fold_left progress_step atts1 ∅ = fold_left progress_step atts2 ∅.
Proof.
  intros Hp. apply map_eq. intros qid.
  eapply is_max_of_perm;
    [apply scores_of_perm, Hp|apply by_quiz_is_max|apply by_quiz_is_max].
Qed.

Lemma passed_size (m : gmap (option string) Z) qid b :
  m !! qid = Some b → (70 ≤ b)%Z → 1 ≤ size (filter passed m).
Proof.
  intros Hm Hb.
  assert (Hf : filter passed m !! qid = Some b)
    by (apply map_lookup_filter_Some; split; [exact Hm|exact Hb]).
  destruct (size (filter passed m)) eqn:Hs; [|lia].
  apply map_size_empty_inv in Hs. rewrite Hs, lookup_empty in Hf. discriminate Hf.
Qed.

(** What a submission that returned has done to the store. *)
Lemma submit_attempt_returned quiz_id payload w r w' :
  submit_attempt quiz_id payload w = (Ok r, w') →
  answering w
  ∧ ∃ quiz, quiz_with_id quiz_id (db w) = Some quiz
    ∧ grade (QuizDoc.questions quiz) (SubmitAttempt.answers payload) = Ok (r_score r)
    ∧ r_correct r
      = count_correct (QuizDoc.questions quiz) (SubmitAttempt.answers payload)
    ∧ r_total r = Z.of_nat (length (QuizDoc.questions quiz))
    ∧ db w' = insert_doc c_attempt (attempt_doc quiz_id payload (r_score r) w) (db w).
Proof.
  intros Hrun.
  apply submit_attempt_inv in Hrun
    as [(_ & [d [=]] & _)|[(_ & _ & [=] & _)
       |(Ha & quiz & score & Hq & Hg & [(_ & [d [=]] & _)|(_ & [= ->] & ->)])]].
  split; [exact Ha|]. exists quiz. repeat split; assumption.
Qed.

Lemma first_with_id (l : list QuizDoc.t) q :
  q ∈ l → ∃ q', head (filter (λ d, QuizDoc._id d = QuizDoc._id q) l) = Some q'.
Proof.
  intros Hin.
  assert (Hq : q ∈ filter (λ d, QuizDoc._id d = QuizDoc._id q) l)
    by (apply list_elem_of_filter; auto).
  destruct (filter _ l) as [|q' k]; [inversion Hq|]. now exists q'.
Qed.

Lemma first_with_id_unique (l : list QuizDoc.t) q :
  NoDup (QuizDoc._id <$> l) → q ∈ l →
  head (filter (λ d, QuizDoc._id d = QuizDoc._id q) l) = Some q.
Proof.
  induction l as [|d l IH]; intros Hnd Hin; [inversion Hin|].
  rewrite fmap_cons in Hnd. apply NoDup_cons in Hnd as [Hd Hnd].
  rewrite filter_cons. destruct (decide (QuizDoc._id d = QuizDoc._id q)) as [E|E].
  - simpl. f_equal. apply elem_of_cons in Hin as [->|Hin]; [reflexivity|].
    exfalso. apply Hd. rewrite E. now apply list_elem_of_fmap_2.
  - apply IH; [exact Hnd|]. apply elem_of_cons in Hin as [->|Hin]; [congruence|exact Hin].
Qed.

Lemma count_correct_app questions answers extra :
  count_correct questions (answers ++ extra)
  = (count_correct questions answers
     + count_correct (drop (length answers) questions) extra)%Z.
Proof.
  rewrite !count_correct_zip.
  rewrite (zip_with_app_l pair answers extra questions), filter_app, length_app.
  rewrite (zip_with_take_r pair answers questions). lia.
Qed.

End Flow.

(** * Properties of handlers run one after the other *)

Import Flow.

(** X10: a lesson or quiz that [ensure_lesson] or [ensure_quiz] has been
    called for can be read back: when the store answers, [get_lesson] with
    the lesson's slug ([get_quiz] with the quiz's lesson slug) returns a
    document with that key, and it is the document just created when the
    store had none with the key. *)
Theorem ensure_then_get :
  (∀ lesson w w',
     ensure_lesson lesson w = (Ok (), w') → answering w' →
     ∃ d, (get_lesson (Lesson.slug lesson) w').1 = Ok d
       ∧ LessonDoc.slug d = Lesson.slug lesson
       ∧ ((∀ d0, d0 ∈ lesson_docs (db w) → LessonDoc.slug d0 ≠ Lesson.slug lesson) →
          d = Lesson_model_dump lesson (fresh_id (db w))))
  ∧ (∀ quiz w w',
     ensure_quiz quiz w = (Ok (), w') → answering w' →
     ∃ d, (get_quiz (Quiz.lesson_slug quiz) w').1 = Ok d
       ∧ QuizDoc.lesson_slug d = Quiz.lesson_slug quiz
       ∧ ((∀ d0, d0 ∈ quiz_docs (db w) → QuizDoc.lesson_slug d0 ≠ Quiz.lesson_slug quiz) →
          d = Quiz_model_dump quiz (fresh_id (db w)))).
Proof.
  split.
  - intros lesson w w' Hrun Ha. rewrite ensure_lesson_ensure in Hrun.
    rewrite get_lesson_answering by exact Ha. simpl fst.
    apply ensure_inv in Hrun as [(Hne & Hdb)|[(_ & [e [=]] & _)|(Hnil & _ & Hdb)]];
      rewrite Hdb; unfold with_key in *;
      change (docs c_lesson (db w)) with (lesson_docs (db w)) in *;
      rewrite filter_bool_decide in *.
    + destruct (filter _ (lesson_docs (db w))) as [|d l] eqn:E; [contradiction|].
      assert (Hd : d ∈ filter (λ d, LessonDoc.slug d = Lesson.slug lesson)
                         (lesson_docs (db w))) by (rewrite E; left).
      apply list_elem_of_filter in Hd as [Hs Hin].
      exists d. split; [reflexivity|]. split; [exact Hs|].
      intros Hno. now apply Hno in Hin.
    + change (lesson_docs (insert_doc c_lesson ?x ?s)) with (lesson_docs s ++ [x]).
      rewrite filter_app, Hnil, filter_cons_True by reflexivity.
      eexists. split; [reflexivity|]. split; reflexivity.
  - intros quiz w w' Hrun Ha. rewrite ensure_quiz_ensure in Hrun.
    rewrite get_quiz_answering by exact Ha. simpl fst.
    apply ensure_inv in Hrun as [(Hne & Hdb)|[(_ & [e [=]] & _)|(Hnil & _ & Hdb)]];
      rewrite Hdb; unfold with_key in *;
      change (docs c_quiz (db w)) with (quiz_docs (db w)) in *;
      rewrite filter_bool_decide in *.
    + destruct (filter _ (quiz_docs (db w))) as [|d l] eqn:E; [contradiction|].
      assert (Hd : d ∈ filter (λ d, QuizDoc.lesson_slug d = Quiz.lesson_slug quiz)
                         (quiz_docs (db w))) by (rewrite E; left).
      apply list_elem_of_filter in Hd as [Hs Hin].
      exists d. split; [reflexivity|]. split; [exact Hs|].
      intros Hno. now apply Hno in Hin.
    + change (quiz_docs (insert_doc c_quiz ?x ?s)) with (quiz_docs s ++ [x]).
      rewrite filter_app, Hnil, filter_cons_True by reflexivity.
      eexists. split; [reflexivity|]. split; reflexivity.
Qed.

(** A lesson that the curriculum does not have. *)
Definition lesson_unit_8 : Lesson.t :=
  Lesson.mk "section-ii" "UNIT 8: Query Optimization" "unit-8-optimization"
    "# UNIT 8" "advanced" 5.

Lemma ensure_then_get_witness :
  ∃ d, (get_lesson "unit-8-optimization" (ensure_lesson lesson_unit_8 seeded).2).1
       = Ok d
    ∧ LessonDoc.slug d = "unit-8-optimization"
    ∧ ((∀ d0, d0 ∈ lesson_docs (db seeded) → LessonDoc.slug d0 ≠ "unit-8-optimization") →
       d = Lesson_model_dump lesson_unit_8 (fresh_id (db seeded))).
Proof.
  apply (proj1 ensure_then_get lesson_unit_8 seeded
           (ensure_lesson lesson_unit_8 seeded).2);
    [vm_compute; reflexivity|vm_compute; exact I].
Defined.

(** X11: what [submit_attempt] does to the store.  It never touches the
    tracks, lessons or quizzes; when it raises, the store is as before;
    when it returns, exactly one attempt has been appended, holding the
    learner's email, the quiz identifier and the answers as submitted, the
    score returned, and the time of the call. *)
Theorem submit_attempt_store_effect quiz_id payload w r w' :
  submit_attempt quiz_id payload w = (r, w') →
  track_docs (db w') = track_docs (db w)
  ∧ lesson_docs (db w') = lesson_docs (db w)
  ∧ quiz_docs (db w') = quiz_docs (db w)
  ∧ (∀ e, r = Raise e → db w' = db w)
  ∧ (∀ result, r = Ok result →
       attempt_docs (db w')
       = attempt_docs (db w)
         ++ [AttemptDoc.mk (fresh_id (db w)) (SubmitAttempt.user_email payload)
               (Some quiz_id) (SubmitAttempt.answers payload)
               (Some (r_score result)) (Some (now w))]).
Proof.
  intros Hrun.
  apply submit_attempt_inv in Hrun
    as [(_ & (detail & ->) & ->)|[(_ & _ & -> & ->)
       |(_ & quiz & score & _ & _ & [(_ & (detail & ->) & ->)|(_ & -> & ->)])]];
    simpl; repeat split; try reflexivity; try discriminate.
  intros result [= <-]. reflexivity.
Qed.

(** The submission of the right answer to the quiz of Unit 2. *)
Definition payload_unit_2 : SubmitAttempt.t := SubmitAttempt.mk learner [1%Z].

Definition after_unit_2 : World := (submit_attempt "10" payload_unit_2 seeded).2.

Lemma submit_attempt_store_effect_witness :
  track_docs (db after_unit_2) = track_docs (db seeded)
  ∧ lesson_docs (db after_unit_2) = lesson_docs (db seeded)
  ∧ quiz_docs (db after_unit_2) = quiz_docs (db seeded)
  ∧ (∀ e, Ok (mkAttemptResult 100 1 1) = Raise e → db after_unit_2 = db seeded)
  ∧ (∀ result, Ok (mkAttemptResult 100 1 1) = Ok result →
       attempt_docs (db after_unit_2)
       = attempt_docs (db seeded)
         ++ [AttemptDoc.mk (fresh_id (db seeded)) learner (Some "10") [1%Z]
               (Some (r_score result)) (Some (now seeded))]).
Proof.
  apply (submit_attempt_store_effect "10" payload_unit_2 seeded
           (Ok (mkAttemptResult 100 1 1)) after_unit_2).
  vm_compute. reflexivity.
Defined.

Lemma filter_none {A} (P : A → Prop) `{!∀ x, Decision (P x)} (l : list A) :
  Forall (λ x, ¬ P x) l → filter P l = [].
Proof.
  induction 1 as [|x l Hx _ IH]; [reflexivity|].
  now rewrite filter_cons_False.
Qed.

(** X12: a submission none of whose answers is the [answer_index] of the
    question at its position (an empty one, for instance) is scored 0 with
    0 correct, whatever the quiz. *)
Theorem submit_attempt_no_right_answer quiz_id payload w r w' quiz :
  submit_attempt quiz_id payload w = (Ok r, w') →
  quiz_with_id quiz_id (db w) = Some quiz →
  Forall (λ p : Z * Question.t, p.1 ≠ Question.answer_index p.2)
    (zip (SubmitAttempt.answers payload) (QuizDoc.questions quiz)) →
  r_score r = 0%Z ∧ r_correct r = 0%Z.
Proof.
  intros Hrun Hq Hwrong.
  apply submit_attempt_returned in Hrun
    as (_ & quiz' & Hq' & Hg & Hc & _).
  assert (quiz' = quiz) as -> by congruence.
  assert (H0 : count_correct (QuizDoc.questions quiz) (SubmitAttempt.answers payload)
               = 0%Z).
  { rewrite count_correct_zip, (filter_none agrees); [reflexivity|exact Hwrong]. }
  unfold grade in Hg. rewrite H0, score_percent_0 in Hg.
  split; congruence.
Qed.

Definition payload_wrong : SubmitAttempt.t := SubmitAttempt.mk learner [0%Z; 3%Z].

Lemma submit_attempt_no_right_answer_witness :
  r_score (mkAttemptResult 0 0 1) = 0%Z ∧ r_correct (mkAttemptResult 0 0 1) = 0%Z.
Proof.
  apply (submit_attempt_no_right_answer "10" payload_wrong seeded
           (mkAttemptResult 0 0 1) (submit_attempt "10" payload_wrong seeded).2
           (default quiz_0 (quiz_with_id "10" (db seeded))));
    [vm_compute; reflexivity|vm_compute; reflexivity|].
  vm_compute. repeat constructor. discriminate.
Defined.

(** X13: submitting further answers after the same ones never lowers the
    number counted correct, raises it by at most the number of answers
    added, and leaves the total unchanged; once every question has an
    answer, further answers change nothing in the result. *)
Theorem submit_attempt_more_answers quiz_id p1 p2 extra w1 r1 w1' w2 r2 w2' :
  submit_attempt quiz_id p1 w1 = (Ok r1, w1') →
  submit_attempt quiz_id p2 w2 = (Ok r2, w2') →
  quiz_docs (db w2) = quiz_docs (db w1) →
  SubmitAttempt.answers p2 = SubmitAttempt.answers p1 ++ extra →
  (r_correct r1 ≤ r_correct r2 ≤ r_correct r1 + Z.of_nat (length extra))%Z
  ∧ r_total r2 = r_total r1
  ∧ ((r_total r1 ≤ Z.of_nat (length (SubmitAttempt.answers p1)))%Z → r2 = r1).
Proof.
  intros Hrun1 Hrun2 Hsame Hext.
  apply submit_attempt_returned in Hrun1 as (_ & q1 & Hq1 & Hg1 & Hc1 & Ht1 & _).
  apply submit_attempt_returned in Hrun2 as (_ & q2 & Hq2 & Hg2 & Hc2 & Ht2 & _).
  unfold quiz_with_id in Hq1, Hq2. rewrite Hsame in Hq2.
  assert (q2 = q1) as -> by congruence.
  rewrite Hext in *. unfold grade in Hg1, Hg2.
  rewrite count_correct_app in Hc2, Hg2.
  assert (Hr := count_correct_range
                  (drop (length (SubmitAttempt.answers p1)) (QuizDoc.questions q1))
                  extra).
  rewrite length_drop in Hr.
  split; [lia|]. split; [congruence|].
  intros Hall.
  assert (H0 : count_correct
                 (drop (length (SubmitAttempt.answers p1)) (QuizDoc.questions q1))
                 extra = 0%Z) by lia.
  rewrite H0, Z.add_0_r in Hc2, Hg2.
  destruct r1, r2; simpl in *. congruence.
Qed.

Definition payload_unit_2_more : SubmitAttempt.t :=
  SubmitAttempt.mk learner [1%Z; 0%Z; 2%Z].

Lemma submit_attempt_more_answers_witness :
  (1 ≤ 1 ≤ 1 + Z.of_nat (length [0%Z; 2%Z]))%Z
  ∧ r_total (mkAttemptResult 100 1 1) = r_total (mkAttemptResult 100 1 1)
  ∧ ((r_total (mkAttemptResult 100 1 1)
      ≤ Z.of_nat (length (SubmitAttempt.answers payload_unit_2)))%Z →
     mkAttemptResult 100 1 1 = mkAttemptResult 100 1 1).
Proof.
  apply (submit_attempt_more_answers "10" payload_unit_2 payload_unit_2_more
           [0%Z; 2%Z] seeded (mkAttemptResult 100 1 1) after_unit_2
           after_unit_2 (mkAttemptResult 100 1 1)
           (submit_attempt "10" payload_unit_2_more after_unit_2).2);
    vm_compute; reflexivity.
Defined.

Lemma get_quiz_found slug w quiz :
  (get_quiz slug w).1 = Ok quiz →
  quiz ∈ quiz_docs (db w) ∧ QuizDoc.lesson_slug quiz = slug.
Proof.
  destruct (store_failure w) as [e|] eqn:Hf.
  - unfold get_quiz.
    rewrite (bind_failing _ _ _ _ _ (get_documents_failing c_quiz _ 1 w e Hf)).
    discriminate.
  - apply store_failure_None in Hf. rewrite get_quiz_answering by exact Hf.
    simpl fst. intros Hok. apply first_or_404_iff in Hok.
    apply head_filter_Some in Hok as [Hs Hin]. auto.
Qed.

(** X14: the identifier of a quiz that [get_quiz] has returned is accepted
    by [submit_attempt]: as long as the quizzes are the same and both of
    its calls to the store answer, the submission is not answered with 404
    but graded, with a score from 0 to 100; when no two stored quizzes
    share an identifier, it is graded on the questions that [get_quiz]
    returned. *)
Theorem get_quiz_then_submit slug w quiz payload w2 :
  (get_quiz slug w).1 = Ok quiz →
  quiz_docs (db w2) = quiz_docs (db w) →
  answering w2 → answering (served (db w2) w2) →
  ∃ r w3, submit_attempt (QuizDoc._id quiz) payload w2 = (Ok r, w3)
    ∧ (0 ≤ r_score r ≤ 100)%Z
    ∧ (NoDup (QuizDoc._id <$> quiz_docs (db w)) →
       r_total r = Z.of_nat (length (QuizDoc.questions quiz))
       ∧ r_correct r
         = count_correct (QuizDoc.questions quiz) (SubmitAttempt.answers payload)).
Proof.
  intros Hget Hsame Ha Ha1.
  apply get_quiz_found in Hget as [Hin _].
  destruct (first_with_id _ _ Hin) as (q' & Hq').
  assert (Hq : quiz_with_id (QuizDoc._id quiz) (db w2) = Some q')
    by (unfold quiz_with_id; now rewrite Hsame).
  destruct (grade_range (QuizDoc.questions q') (SubmitAttempt.answers payload))
    as (score & Hg & Hrange).
  eexists _, _. split; [exact (submit_attempt_ok _ payload w2 q' score Ha Ha1 Hq Hg)|].
  split; [exact Hrange|].
  intros Hnodup. rewrite (first_with_id_unique _ _ Hnodup Hin) in Hq'.
  injection Hq' as <-. split; reflexivity.
Qed.

Lemma get_quiz_then_submit_witness :
  ∃ r w3,
    submit_attempt
      (QuizDoc._id (default quiz_0 (quiz_with_id "10" (db seeded))))
      payload_unit_2 after_unit_2 = (Ok r, w3)
    ∧ (0 ≤ r_score r ≤ 100)%Z
    ∧ (NoDup (QuizDoc._id <$> quiz_docs (db seeded)) →
       r_total r
       = Z.of_nat (length (QuizDoc.questions
                             (default quiz_0 (quiz_with_id "10" (db seeded)))))
       ∧ r_correct r
         = count_correct
             (QuizDoc.questions (default quiz_0 (quiz_with_id "10" (db seeded))))
             (SubmitAttempt.answers payload_unit_2)).
Proof.
  apply (get_quiz_then_submit "unit-2-relational" seeded
           (default quiz_0 (quiz_with_id "10" (db seeded)))
           payload_unit_2 after_unit_2);
    [vm_compute; reflexivity|vm_compute; reflexivity
    |vm_compute; exact I|vm_compute; exact I].
Defined.

(** The attempts of one learner, in stored order. *)
Definition attempts_of (email : string) (s : Store) : list AttemptDoc.t :=
  filter (λ a, AttemptDoc.user_email a = email) (attempt_docs s).

Lemma attempts_of_insert email a s :
  attempts_of email (insert_doc c_attempt a s)
  = attempts_of email s
    ++ (if decide (AttemptDoc.user_email a = email) then [a] else []).
Proof.
  unfold attempts_of.
  change (attempt_docs (insert_doc c_attempt a s)) with (attempt_docs s ++ [a]).
  now rewrite filter_app.
Qed.

Lemma get_progress_attempts_of email w :
  answering w →
  (get_progress email w).1 = Ok (progress_of (take 1000 (attempts_of email (db w)))).
Proof. intros Ha. now rewrite get_progress_answering. Qed.

(** X15: a graded submission shows in the learner's progress.  For a
    learner with fewer than 1000 stored attempts, [get_progress] run after
    [submit_attempt] has an entry for the quiz in [best_scores] that is at
    least the score just returned, and a score of 70 or more makes
    [quizzes_completed] at least 1. *)
Theorem submit_then_progress quiz_id payload w r w' :
  submit_attempt quiz_id payload w = (Ok r, w') →
  answering w' →
  length (attempts_of (SubmitAttempt.user_email payload) (db w)) < 1000 →
  ∃ p b, (get_progress (SubmitAttempt.user_email payload) w').1 = Ok p
    ∧ best_scores p !! Some quiz_id = Some b
    ∧ (r_score r ≤ b)%Z
    ∧ ((70 ≤ r_score r)%Z → 1 ≤ quizzes_completed p).
Proof.
  intros Hrun Ha Hlen.
  apply submit_attempt_returned in Hrun as (_ & quiz & _ & _ & _ & _ & Hdb).
  rewrite get_progress_attempts_of by exact Ha.
  rewrite Hdb, attempts_of_insert.
  rewrite decide_True by reflexivity.
  rewrite take_ge by (rewrite length_app; simpl; lia).
  set (atts := attempts_of _ _ ++ [_]).
  assert (Hmax := by_quiz_is_max atts (Some quiz_id)).
  destruct (is_max_of_elem _ _ (r_score r) Hmax) as (b & Hb & Hle).
  { unfold scores_of, atts. rewrite filter_app, fmap_app.
    apply elem_of_app. right. rewrite filter_cons_True by reflexivity. left. }
  exists (progress_of atts), b. split; [reflexivity|].
  split; [exact Hb|]. split; [exact Hle|].
  intros Hpass. simpl. rewrite count_completed_size.
  apply (passed_size _ (Some quiz_id) b Hb). lia.
Qed.

Lemma submit_then_progress_witness :
  ∃ p b, (get_progress learner after_unit_2).1 = Ok p
    ∧ best_scores p !! Some "10" = Some b
    ∧ (100 ≤ b)%Z
    ∧ ((70 ≤ 100)%Z → 1 ≤ quizzes_completed p).
Proof.
  apply (submit_then_progress "10" payload_unit_2 seeded
           (mkAttemptResult 100 1 1) after_unit_2);
    [vm_compute; reflexivity|vm_compute; exact I
    |apply Nat.ltb_lt; vm_compute; reflexivity].
Defined.






(** X17: the progress of a learner with at most 1000 stored attempts does
    not depend on the order in which the store returns them: two stores
    holding the same attempts of the learner, in any order, give the same
    [quizzes_completed] and the same [best_scores]. *)
Theorem get_progress_order_independent email w1 w2 :
  answering w1 → answering w2 →
  attempts_of email (db w1) ≡ₚ attempts_of email (db w2) →
  length (attempts_of email (db w1)) ≤ 1000 →
  (get_progress email w1).1 = (get_progress email w2).1.
Proof.
  intros Ha1 Ha2 Hperm Hlen.
  rewrite !get_progress_attempts_of by assumption.
  assert (Hlen2 : length (attempts_of email (db w2)) ≤ 1000)
    by (now rewrite <- Hperm).
  rewrite !take_ge by assumption.
  unfold progress_of. now rewrite (fold_progress_perm _ _ Hperm).
Qed.

(** The attempts of [world_40_90_70], the first two exchanged. *)
Definition world_90_40_70 : World :=
  mkWorld
    (mkStore [] [] []
       [AttemptDoc.mk "1" learner (Some "q") [] (Some 90%Z) (Some 1%Z);
        AttemptDoc.mk "0" learner (Some "q") [] (Some 40%Z) (Some 0%Z);
        AttemptDoc.mk "2" learner (Some "q") [] (Some 70%Z) (Some 2%Z)]
       3)
    [] 3 [].

Lemma get_progress_order_independent_witness :
  (get_progress learner world_40_90_70).1 = (get_progress learner world_90_40_70).1.
Proof.
  apply (get_progress_order_independent learner world_40_90_70 world_90_40_70);
    [vm_compute; exact I|vm_compute; exact I| |apply Nat.leb_le; vm_compute; reflexivity].
  vm_compute. apply perm_swap.
Defined.

(** X18: a submission by one learner does not change what [get_progress]
    returns for any other learner. *)
Theorem submit_leaves_other_learners quiz_id payload email w r w' :
  submit_attempt quiz_id payload w = (Ok r, w') →
  answering w' →
  email ≠ SubmitAttempt.user_email payload →
  (get_progress email w').1 = (get_progress email w).1.
Proof.
  intros Hrun Ha' Hother.
  apply submit_attempt_returned in Hrun as (Ha & quiz & _ & _ & _ & _ & Hdb).
  rewrite !get_progress_attempts_of by assumption.
  rewrite Hdb, attempts_of_insert.
  rewrite decide_False by (simpl; congruence).
  now rewrite app_nil_r.
Qed.

Lemma submit_leaves_other_learners_witness :
  (get_progress "other@example.org" after_unit_2).1
  = (get_progress "other@example.org" seeded).1.
Proof.
  apply (submit_leaves_other_learners "10" payload_unit_2 "other@example.org" seeded
           (mkAttemptResult 100 1 1) after_unit_2);
    [vm_compute; reflexivity|vm_compute; exact I|discriminate].
Defined.

(** * Further properties of the listing and of the scores *)

Lemma sort_by_sorted_fixed {A} (key : A → Z) (l : list A) :
  StronglySorted (key_le key) l → sort_by key l = l.
Proof.
  induction 1 as [|x l _ IH Hx]; [reflexivity|].
  unfold sort_by in *. simpl. rewrite IH.
  destruct Hx as [|y l' Hy _]; [reflexivity|]. simpl.
  unfold key_le in Hy. now rewrite (proj2 (Z.leb_le _ _) Hy).
Qed.

(** X19: when the lessons that [list_lessons] reads for a track (its
    first 200 in stored order) are stored in ascending order of [order],
    they are returned exactly in stored order. *)
Theorem list_lessons_already_sorted slug w items :
  (list_lessons slug w).1 = Ok items →
  StronglySorted (key_le order_key)
    (take 200 (filter (λ d, LessonDoc.track_slug d = slug) (lesson_docs (db w)))) →
  items = take 200 (filter (λ d, LessonDoc.track_slug d = slug) (lesson_docs (db w))).
Proof.
  intros Hrun Hsorted.
  destruct (list_lessons slug w) as [r w'] eqn:H. simpl in Hrun. subst r.
  apply list_lessons_inv in H as [_ [(_ & [= ->])|(_ & d & [=])]].
  now apply sort_by_sorted_fixed.
Qed.

(** The value returned, or [d] when an exception was raised. *)
Definition ok_or {A} (d : A) (r : res A) : A :=
  match r with
  | Ok a => a
  | Raise _ => d
  end.

Lemma list_lessons_already_sorted_witness :
  ok_or [] (list_lessons "section-ii" seeded).1
  = take 200 (filter (λ d, LessonDoc.track_slug d = "section-ii")
                (lesson_docs (db seeded))).
Proof.
  apply (list_lessons_already_sorted "section-ii" seeded
           (ok_or [] (list_lessons "section-ii" seeded).1));
    [vm_compute; reflexivity|].
  vm_compute.
  repeat first [apply SSorted_nil | apply SSorted_cons
               | apply List.Forall_nil | apply List.Forall_cons];
    discriminate.
Defined.

(** Every stored attempt has a score from 0 to 100. *)
Definition scores_valid (s : Store) : Prop :=
  Forall (λ a, ∃ sc, AttemptDoc.score a = Some sc ∧ (0 ≤ sc ≤ 100)%Z)
    (attempt_docs s).

(** X20: that every stored attempt has a score from 0 to 100 holds of the
    empty store and is preserved by [submit_attempt] and by [seed_data],
    whatever they return; in a store of which it holds, every best score
    that [get_progress] returns is from 0 to 100. *)
Theorem scores_valid_invariant :
  scores_valid empty_store
  ∧ (∀ quiz_id payload w,
       scores_valid (db w) → scores_valid (db (submit_attempt quiz_id payload w).2))
  ∧ (∀ w, scores_valid (db w) → scores_valid (db (seed_data w).2))
  ∧ (∀ email w p,
       scores_valid (db w) → (get_progress email w).1 = Ok p →
       ∀ qid b, best_scores p !! qid = Some b → (0 ≤ b ≤ 100)%Z).
Proof.
  split; [constructor|]. split; [|split].
  - intros quiz_id payload w Hv.
    destruct (submit_attempt quiz_id payload w) as [r w'] eqn:Hrun.
    apply submit_attempt_inv in Hrun
      as [(_ & _ & ->)|[(_ & _ & _ & ->)
         |(_ & quiz & score & _ & Hg & [(_ & _ & ->)|(_ & _ & ->)])]];
      try exact Hv.
    unfold scores_valid. simpl. apply Forall_app. split; [exact Hv|].
    constructor; [|constructor]. exists score. split; [reflexivity|].
    destruct (grade_range (QuizDoc.questions quiz) (SubmitAttempt.answers payload))
      as (score' & Hg' & Hrange).
    congruence.
  - intros w Hv. destruct (seed_data w) as [r w'] eqn:Hrun.
    apply keeps_seed_data in Hrun as (_ & _ & _ & Hsame).
    unfold scores_valid. simpl. now rewrite Hsame.
  - intros email w p Hv Hrun qid b Hb.
    destruct (get_progress email w) as [r w'] eqn:H. simpl in Hrun. subst r.
    apply get_progress_inv in H as [_ [(_ & [= ->])|(_ & d & [=])]].
    cbv zeta in Hb. simpl best_scores in Hb.
    assert (Hmax := by_quiz_is_max
                      (take 1000 (filter (λ a, AttemptDoc.user_email a = email)
                                    (attempt_docs (db w)))) qid).
    rewrite Hb in Hmax. destruct Hmax as [Hin _].
    unfold scores_of in Hin.
    apply list_elem_of_fmap in Hin as (a & -> & Ha).
    apply list_elem_of_filter in Ha as [_ Ha].
    apply subseteq_take in Ha. apply list_elem_of_filter in Ha as [_ Ha].
    unfold scores_valid in Hv. rewrite Forall_forall in Hv.
    destruct (Hv a Ha) as (sc & Hs & Hrange).
    unfold score_or_0. now rewrite Hs.
Qed.

Lemma scores_valid_invariant_witness :
  scores_valid (db world_40_90_70)
  ∧ ∀ qid b,
      best_scores (ok_or (mkProgress 0 ∅) (get_progress learner world_40_90_70).1)
        !! qid = Some b →
      (0 ≤ b ≤ 100)%Z.
Proof.
  assert (Hv : scores_valid (db world_40_90_70))
    by (repeat constructor; eexists; (split; [reflexivity|lia])).
  split; [exact Hv|].
  apply (proj2 (proj2 (proj2 scores_valid_invariant)) learner world_40_90_70);
    [exact Hv|vm_compute; reflexivity].
Defined.
